(** * The Lighter signer bridge (lighter_signer_bridge.py)

    A shallow embedding of the bridge that exposes the native Lighter signer
    library over a line-delimited JSON protocol, and the properties of its
    client registry, result unwrapper and dispatcher.

    Python values are embedded as an inductive type, the two module-level
    containers (_CLIENT_CONFIG, _INITIALISED_KEYS) as a gmap and a gset that
    are threaded through a state-and-exception monad, and the foreign library
    LIB as an interface whose calls are recorded in a trace. *)

From Stdlib Require Import ZArith NArith Lia Bool.
From Stdlib Require Import Strings.String Strings.Ascii Strings.Byte.
From Stdlib Require Import Floats.SpecFloat.
From Stdlib Require Import DecimalString.
From stdpp Require Import base option list gmap sets.

#[local] Set Warnings "-register-all".
#[local] Open Scope Z_scope.

(** ** Python data *)

(** A Python [str] is a sequence of code points; a [bytes] object is a
    sequence of octets. *)
Definition pystr : Type := list N.
Definition pybytes : Type := list byte.

(** ASCII literals of the source text. *)
Definition lit (s : string) : pystr :=
  (fun a => N_of_ascii a) <$> list_ascii_of_string s.

(** The values [json.loads] can produce. *)
Inductive value : Type :=
| VNone
| VBool (b : bool)
| VInt (z : Z)
| VFloat (f : spec_float)
| VStr (s : pystr)
| VList (l : list value)
| VDict (items : gmap pystr value).

(** Exceptions the bridge can meet, each with the object it complains
    about. *)
Inductive exn : Type :=
| KeyError (key : pystr)
| TypeError (v : value)
| ValueError (v : value)
| OverflowError (v : value)
| AttributeError (v : value) (attr : pystr)
| UnicodeEncodeError (s : pystr)
| UnicodeDecodeError (bs : pybytes)
| RecursionError.

(** The outcome of evaluating an expression that may raise. *)
Inductive res (A : Type) : Type :=
| Ok (a : A)
| Raise (e : exn).
Arguments Ok {A} a.
Arguments Raise {A} e.

Definition res_bind {A B} (r : res A) (k : A → res B) : res B :=
  match r with
  | Ok a => k a
  | Raise e => Raise e
  end.

Definition res_map {A B} (f : A → B) (r : res A) : res B :=
  res_bind r (fun a => Ok (f a)).

(** ** Text codecs *)

Module Codec.

(** The [errors] argument of [bytes.decode]. *)
Inductive error_mode : Type := Strict | Replace.

Definition REPLACEMENT_CHARACTER : N := 0xFFFD.

Definition byte_of_N (n : N) : byte := default "000"%byte (Byte.of_N n).

Definition is_continuation (n : N) : bool :=
  ((0x80 <=? n) && (n <=? 0xBF))%N.

(** The second byte of a three- or four-byte sequence is further
    restricted by its lead byte (no overlong forms, no surrogates, nothing
    above U+10FFFF). *)
Definition second_ok (lead n : N) : bool :=
  (if lead =? 0xE0 then (0xA0 <=? n) && (n <=? 0xBF)
   else if lead =? 0xED then (0x80 <=? n) && (n <=? 0x9F)
   else if lead =? 0xF0 then (0x90 <=? n) && (n <=? 0xBF)
   else if lead =? 0xF4 then (0x80 <=? n) && (n <=? 0x8F)
   else is_continuation n)%N.

Definition low6 (n : N) : N := N.land n 0x3F.

(** What happens at an ill-formed position: [Strict] raises, [Replace]
    emits U+FFFD and goes on with the rest. *)
Definition malformed (errors : error_mode) (all : pybytes)
    (rest : res pystr) : res pystr :=
  match errors with
  | Strict => Raise (UnicodeDecodeError all)
  | Replace => res_map (cons REPLACEMENT_CHARACTER) rest
  end.

(** [bs.decode("utf-8", errors)]. An ill-formed position covers the longest
    prefix of a well-formed sequence starting there (at least one byte). *)
Fixpoint decode_from (errors : error_mode) (all bs : pybytes) : res pystr :=
  match bs with
  | [] => Ok []
  | b0 :: r0 =>
    let c0 := Byte.to_N b0 in
    if (c0 <? 0x80)%N then res_map (cons c0) (decode_from errors all r0)
    else if (c0 <? 0xC2)%N then malformed errors all (decode_from errors all r0)
    else if (c0 <? 0xE0)%N then
      match r0 with
      | [] => malformed errors all (Ok [])
      | b1 :: r1 =>
        let c1 := Byte.to_N b1 in
        if is_continuation c1
        then res_map (cons (N.shiftl (N.land c0 0x1F) 6 + low6 c1)%N)
                     (decode_from errors all r1)
        else malformed errors all (decode_from errors all r0)
      end
    else if (c0 <? 0xF0)%N then
      match r0 with
      | [] => malformed errors all (Ok [])
      | b1 :: r1 =>
        let c1 := Byte.to_N b1 in
        if second_ok c0 c1 then
          match r1 with
          | [] => malformed errors all (Ok [])
          | b2 :: r2 =>
            let c2 := Byte.to_N b2 in
            if is_continuation c2
            then res_map (cons (N.shiftl (N.land c0 0x0F) 12
                                + N.shiftl (low6 c1) 6 + low6 c2)%N)
                         (decode_from errors all r2)
            else malformed errors all (decode_from errors all r1)
          end
        else malformed errors all (decode_from errors all r0)
      end
    else if (c0 <? 0xF5)%N then
      match r0 with
      | [] => malformed errors all (Ok [])
      | b1 :: r1 =>
        let c1 := Byte.to_N b1 in
        if second_ok c0 c1 then
          match r1 with
          | [] => malformed errors all (Ok [])
          | b2 :: r2 =>
            let c2 := Byte.to_N b2 in
            if is_continuation c2 then
              match r2 with
              | [] => malformed errors all (Ok [])
              | b3 :: r3 =>
                let c3 := Byte.to_N b3 in
                if is_continuation c3
                then res_map (cons (N.shiftl (N.land c0 0x07) 18
                                    + N.shiftl (low6 c1) 12
                                    + N.shiftl (low6 c2) 6 + low6 c3)%N)
                             (decode_from errors all r3)
                else malformed errors all (decode_from errors all r2)
              end
            else malformed errors all (decode_from errors all r1)
          end
        else malformed errors all (decode_from errors all r0)
      end
    else malformed errors all (decode_from errors all r0)
  end.

Definition decode (errors : error_mode) (bs : pybytes) : res pystr :=
  decode_from errors bs bs.

(** The octets of one code point; [None] for a surrogate, which UTF-8
    cannot carry (and for a number that is no code point at all). *)
Definition encode_point (c : N) : option pybytes :=
  (if c <? 0x80 then Some [byte_of_N c]
   else if c <? 0x800 then
     Some [byte_of_N (0xC0 + N.shiftr c 6); byte_of_N (0x80 + low6 c)]
   else if (0xD800 <=? c) && (c <=? 0xDFFF) then None
   else if c <? 0x10000 then
     Some [byte_of_N (0xE0 + N.shiftr c 12);
           byte_of_N (0x80 + low6 (N.shiftr c 6));
           byte_of_N (0x80 + low6 c)]
   else if c <? 0x110000 then
     Some [byte_of_N (0xF0 + N.shiftr c 18);
           byte_of_N (0x80 + low6 (N.shiftr c 12));
           byte_of_N (0x80 + low6 (N.shiftr c 6));
           byte_of_N (0x80 + low6 c)]
   else None)%N.

Fixpoint encode_points (s : pystr) : option pybytes :=
  match s with
  | [] => Some []
  | c :: s' =>
    match encode_point c, encode_points s' with
    | Some bs, Some bs' => Some (bs ++ bs')
    | _, _ => None
    end
  end.

(** [s.encode("utf-8")], with the default strict error handling. *)
Definition encode (s : pystr) : res pybytes :=
  match encode_points s with
  | Some bs => Ok bs
  | None => Raise (UnicodeEncodeError s)
  end.

End Codec.

(** ** Python builtins used by the bridge *)

Definition response : Type := gmap pystr value.

(** [float.__int__]: truncation towards zero; NaN and the infinities
    raise. *)
Definition int_of_float (f : spec_float) : res Z :=
  match f with
  | S754_zero _ => Ok 0
  | S754_finite s m e =>
    let magnitude := Z.shiftl (Z.pos m) e in
    Ok (if s then - magnitude else magnitude)
  | S754_infinity _ => Raise (OverflowError (VFloat f))
  | S754_nan => Raise (ValueError (VFloat f))
  end.

(** [str.isspace] for one character. *)
Definition is_space (c : N) : bool :=
  (((0x09 <=? c) && (c <=? 0x0D)) || ((0x1C <=? c) && (c <=? 0x20))
   || (c =? 0x85) || (c =? 0xA0) || (c =? 0x1680)
   || ((0x2000 <=? c) && (c <=? 0x200A))
   || (c =? 0x2028) || (c =? 0x2029) || (c =? 0x202F) || (c =? 0x205F)
   || (c =? 0x3000))%N.

Fixpoint lstrip (s : pystr) : pystr :=
  match s with
  | c :: s' => if is_space c then lstrip s' else s
  | [] => []
  end.

(** [s.strip()]. *)
Definition strip (s : pystr) : pystr := reverse (lstrip (reverse (lstrip s))).

(** [obj[key]] for a [str] key: only a dict can be subscripted that way. *)
Definition getitem (obj : value) (key : pystr) : res value :=
  match obj with
  | VDict d =>
    match d !! key with
    | Some v => Ok v
    | None => Raise (KeyError key)
    end
  | _ => Raise (TypeError obj)
  end.

(** [obj.encode("utf-8")]: only [str] has the method. *)
Definition encode_utf8 (obj : value) : res pybytes :=
  match obj with
  | VStr s => Codec.encode s
  | _ => Raise (AttributeError obj (lit "encode"))
  end.

(** [key in d] and [d.setdefault(key, v)] on a dictionary. *)
Definition has_key (key : pystr) (d : gmap pystr value) : bool :=
  bool_decide (is_Some (d !! key)).

Definition setdefault (key : pystr) (v : value) (d : gmap pystr value)
    : gmap pystr value :=
  match d !! key with
  | Some _ => d
  | None => <[key := v]> d
  end.

(** Whether a value can be a dictionary key at all. *)
Definition hashable (v : value) : bool :=
  match v with
  | VList _ | VDict _ => false
  | _ => true
  end.

(** ** ctypes *)

(** Integer constructors do no overflow checking: the value is reduced to
    the width of the C type. *)
Definition wrap_signed (bits : Z) (z : Z) : Z :=
  let m := z mod 2 ^ bits in
  if m <? 2 ^ (bits - 1) then m else m - 2 ^ bits.

Definition c_int (z : Z) : Z := wrap_signed 32 z.
Definition c_longlong (z : Z) : Z := wrap_signed 64 z.

(** A [c_char_p] result or field as Python sees it: [None] for NULL,
    otherwise the bytes of the C string. *)
Definition c_char_p : Type := option pybytes.

(** Truth value of such an object: [None] and [b""] are false. *)
Definition truthy (p : c_char_p) : bool :=
  match p with
  | Some (_ :: _) => true
  | _ => false
  end.

(** [ctypes.string_at(p)]: the bytes up to the first NUL. *)
Fixpoint until_nul (bs : pybytes) : pybytes :=
  match bs with
  | [] => []
  | b :: bs' => if (Byte.to_N b =? 0)%N then [] else b :: until_nul bs'
  end.

Definition string_at (p : c_char_p) : pybytes :=
  match p with
  | Some bs => until_nul bs
  | None => []
  end.

Module StrOrErr.
Record t : Type := { str : c_char_p; err : c_char_p }.
End StrOrErr.

Module SignedTxResponse.
Record t : Type :=
  { txType : Z;
    txInfo : c_char_p;
    txHash : c_char_p;
    messageToSign : c_char_p;
    err : c_char_p }.
End SignedTxResponse.

(** What [_unwrap] may be handed: an instance of either structure. *)
Inductive foreign_result : Type :=
| Simple (r : StrOrErr.t)
| Composite (r : SignedTxResponse.t).

(** The exports of the signer library, with the argument order of their
    [argtypes]; [L] is whatever state the library keeps between calls. *)
Class Signer (L : Type) : Type :=
  { CreateClient : pybytes → pybytes → Z → Z → Z → L → c_char_p * L;
    SignCreateOrder :
      Z → Z → Z → Z → Z → Z → Z → Z → Z → Z → Z → Z → Z →
      L → SignedTxResponse.t * L;
    SignCancelOrder : Z → Z → Z → Z → Z → L → SignedTxResponse.t * L;
    SignCancelAllOrders : Z → Z → Z → Z → Z → L → SignedTxResponse.t * L;
    CreateAuthToken : Z → Z → Z → L → StrOrErr.t * L }.

(** One entry of the log of calls made into the library. *)
Inductive call : Type :=
| CallCreateClient (url key : pybytes) (chain_id api_key_index account_index : Z)
| CallSignCreateOrder
    (market_index client_order_index base_amount price is_ask order_type
     time_in_force reduce_only trigger_price order_expiry nonce
     api_key_index account_index : Z)
| CallSignCancelOrder (market_index order_index nonce api_key_index account_index : Z)
| CallSignCancelAllOrders
    (time_in_force scheduled_time nonce api_key_index account_index : Z)
| CallCreateAuthToken (deadline api_key_index account_index : Z).

(** ** The result unwrapper *)

Definition decode_replace (p : c_char_p) : res pystr :=
  Codec.decode Codec.Replace (string_at p).

(** [decode(...) if p else None] *)
Definition decode_or_none (p : c_char_p) : res value :=
  if truthy p then res_map VStr (decode_replace p) else Ok VNone.

Definition _unwrap (result : foreign_result) : res response :=
  match result with
  | Composite r =>
    if truthy (SignedTxResponse.err r) then
      res_bind (decode_replace (SignedTxResponse.err r)) (fun e =>
      Ok {[ lit "error" := VStr e ]})
    else
      res_bind (decode_or_none (SignedTxResponse.txInfo r)) (fun tx_info =>
      res_bind (decode_or_none (SignedTxResponse.txHash r)) (fun tx_hash =>
      res_bind (decode_or_none (SignedTxResponse.messageToSign r)) (fun msg =>
      Ok (<[ lit "result" := tx_info ]>
          (<[ lit "txHash" := tx_hash ]>
           {[ lit "messageToSign" := msg ]})))))
  | Simple r =>
    if truthy (StrOrErr.err r) then
      res_bind (decode_replace (StrOrErr.err r)) (fun e =>
      Ok {[ lit "error" := VStr e ]})
    else if truthy (StrOrErr.str r) then
      res_bind (decode_replace (StrOrErr.str r)) (fun s =>
      Ok {[ lit "result" := VStr s ]})
    else Ok {[ lit "result" := VNone ]}
  end.

Definition _maybe_error (ptr : c_char_p) : res response :=
  if truthy ptr then
    res_bind (decode_replace ptr) (fun e => Ok {[ lit "error" := VStr e ]})
  else Ok {[ lit "result" := VStr (lit "ok") ]}.

(** ** The bridge *)

(** A stored signing configuration: the dict built by [_ensure_client]. Its
    two integer entries have been through [int], the other two are whatever
    the request held. *)
Record config : Type :=
  { baseUrl : value;
    privateKey : value;
    chainId : Z;
    accountIndex : Z }.

(** What [json.loads] does with a line: it returns a document, or raises
    JSONDecodeError, or raises something else (RecursionError for a document
    nested beyond the interpreter's recursion limit, ValueError for an
    integer literal with more digits than [int] converts). *)
Inductive loads_result : Type :=
| Loaded (v : value)
| JSONDecodeError (msg : pystr)
| LoadsRaised (e : exn).

(** How the process ends. *)
Inductive exit : Type :=
| EndOfInput
| Uncaught (e : exn).

(** ** A sample interpreter and sample libraries

    Concrete stand-ins for what the bridge takes from its environment, used
    to run the bridge on actual lines of input. *)

Module Sample.

(** Text with ['] standing for the double quote. *)
Definition text (s : string) : pystr :=
  (fun c => if (c =? 39)%N then 34%N else c) <$> lit s.

Definition is_digit (c : N) : bool := ((48 <=? c) && (c <=? 57))%N.

Fixpoint digits (acc : Z) (s : pystr) : Z * pystr :=
  match s with
  | c :: s' =>
    if is_digit c then digits (10 * acc + (Z.of_N c - 48)) s' else (acc, s)
  | [] => (acc, [])
  end.

(** A decimal numeral with an optional sign, and what follows it. *)
Definition numeral (s : pystr) : option (Z * pystr) :=
  match s with
  | 45%N :: c :: s' =>
    if is_digit c then
      let '(z, r) := digits 0 (c :: s') in Some (- z, r)
    else None
  | c :: _ => if is_digit c then Some (digits 0 s) else None
  | [] => None
  end.

(** The interpreter's limits: how deep calls may nest, and how many digits
    [int] converts. *)
Definition recursion_limit : nat := 1000.
Definition max_str_digits : nat := 4300.

Fixpoint leading_digits (s : pystr) : nat :=
  match s with
  | c :: s' => if is_digit c then S (leading_digits s') else O
  | [] => O
  end.

(** The number of digits of the numeral that [s] starts with. *)
Definition numeral_length (s : pystr) : nat :=
  match s with
  | 45%N :: s' => leading_digits s'
  | _ => leading_digits s
  end.

Definition int_of_str (s : pystr) : option Z :=
  match numeral (strip s) with
  | Some (z, []) =>
    if (max_str_digits <? numeral_length (strip s))%nat then None else Some z
  | _ => None
  end.

(** [type(v).__name__] *)
Definition type_name (v : value) : pystr :=
  match v with
  | VNone => lit "NoneType"
  | VBool _ => lit "bool"
  | VInt _ => lit "int"
  | VFloat _ => lit "float"
  | VStr _ => lit "str"
  | VList _ => lit "list"
  | VDict _ => lit "dict"
  end.

Definition exc_str (e : exn) : pystr :=
  match e with
  | KeyError key => lit "'" ++ key ++ lit "'"
  | TypeError _ => lit "TypeError"
  | ValueError _ => lit "ValueError"
  | OverflowError _ => lit "OverflowError"
  | AttributeError v attr =>
    lit "'" ++ type_name v ++ lit "' object has no attribute '" ++ attr
      ++ lit "'"
  | UnicodeEncodeError _ => lit "UnicodeEncodeError"
  | UnicodeDecodeError _ => lit "UnicodeDecodeError"
  | RecursionError => lit "maximum recursion depth exceeded"
  end.

Definition repr (v : value) : pystr :=
  match v with
  | VInt z => lit (NilZero.string_of_int (Z.to_int z))
  | _ => lit "<object>"
  end.

Fixpoint skip_ws (s : pystr) : pystr :=
  match s with
  | c :: s' =>
    if ((c =? 32) || (c =? 9) || (c =? 10) || (c =? 13))%N
    then skip_ws s' else s
  | [] => []
  end.

Fixpoint after (prefix s : pystr) : option pystr :=
  match prefix, s with
  | [], _ => Some s
  | p :: prefix', c :: s' => if (p =? c)%N then after prefix' s' else None
  | _ :: _, [] => None
  end.

(** The characters of a string literal up to its closing quote (escapes
    are not handled). *)
Fixpoint chars (s : pystr) : option (pystr * pystr) :=
  match s with
  | [] => None
  | c :: s' =>
    if (c =? 34)%N then Some ([], s')
    else if (c =? 92)%N then None
    else match chars s' with
         | Some (str, r) => Some (c :: str, r)
         | None => None
         end
  end.

(** What the parser makes of the text at hand: a value and what follows
    it, a syntax error, or an exception of another kind. *)
Inductive parsed (A : Type) : Type :=
| Parsed (a : A) (rest : pystr)
| Syntax
| Failed (e : exn).
Arguments Parsed {A} a rest.
Arguments Syntax {A}.
Arguments Failed {A} e.

(** A parser for documents made of objects, arrays, strings without
    escapes, integers, [true], [false] and [null]. Each array or object
    entered uses up one level of [depth]; with none left RecursionError is
    raised, and an integer literal of too many digits raises ValueError. *)
Fixpoint parse (fuel depth : nat) (s : pystr) : parsed value :=
  match fuel with
  | O => Syntax
  | S fuel =>
    match skip_ws s with
    | [] => Syntax
    | c :: r =>
      if (c =? 34)%N then
        match chars r with
        | Some (str, r') => Parsed (VStr str) r'
        | None => Syntax
        end
      else if (c =? 91)%N then
        match depth with
        | O => Failed RecursionError
        | S depth =>
          match skip_ws r with
          | 93%N :: r' => Parsed (VList []) r'
          | _ =>
            match elements fuel depth r with
            | Parsed l r' => Parsed (VList l) r'
            | Syntax => Syntax
            | Failed e => Failed e
            end
          end
        end
      else if (c =? 123)%N then
        match depth with
        | O => Failed RecursionError
        | S depth =>
          match skip_ws r with
          | 125%N :: r' => Parsed (VDict ∅) r'
          | _ =>
            match members fuel depth r with
            | Parsed d r' => Parsed (VDict d) r'
            | Syntax => Syntax
            | Failed e => Failed e
            end
          end
        end
      else
        match after (lit "null") (c :: r), after (lit "true") (c :: r),
              after (lit "false") (c :: r), numeral (c :: r) with
        | Some r', _, _, _ => Parsed VNone r'
        | _, Some r', _, _ => Parsed (VBool true) r'
        | _, _, Some r', _ => Parsed (VBool false) r'
        | _, _, _, Some (z, r') =>
          if (max_str_digits <? numeral_length (c :: r))%nat
          then Failed (ValueError
                         (VStr (take (length (c :: r) - length r') (c :: r))))
          else Parsed (VInt z) r'
        | _, _, _, _ => Syntax
        end
    end
  end
with elements (fuel depth : nat) (s : pystr) : parsed (list value) :=
  match fuel with
  | O => Syntax
  | S fuel =>
    match parse fuel depth s with
    | Parsed v r =>
      match skip_ws r with
      | 44%N :: r' =>
        match elements fuel depth r' with
        | Parsed l r'' => Parsed (v :: l) r''
        | Syntax => Syntax
        | Failed e => Failed e
        end
      | 93%N :: r' => Parsed [v] r'
      | _ => Syntax
      end
    | Syntax => Syntax
    | Failed e => Failed e
    end
  end
with members (fuel depth : nat) (s : pystr) : parsed (gmap pystr value) :=
  match fuel with
  | O => Syntax
  | S fuel =>
    match skip_ws s with
    | 34%N :: r =>
      match chars r with
      | Some (key, r1) =>
        match skip_ws r1 with
        | 58%N :: r2 =>
          match parse fuel depth r2 with
          | Parsed v r3 =>
            match skip_ws r3 with
            | 44%N :: r4 =>
              match members fuel depth r4 with
              | Parsed d r5 =>
                Parsed (match d !! key with
                        | Some _ => d
                        | None => <[key := v]> d
                        end) r5
              | Syntax => Syntax
              | Failed e => Failed e
              end
            | 125%N :: r4 => Parsed {[ key := v ]} r4
            | _ => Syntax
            end
          | Syntax => Syntax
          | Failed e => Failed e
          end
        | _ => Syntax
        end
      | None => Syntax
      end
    | _ => Syntax
    end
  end.

Definition json_loads (s : pystr) : loads_result :=
  match parse (S (2 * length s)) recursion_limit s with
  | Parsed v r =>
    match skip_ws r with
    | [] => Loaded v
    | _ :: _ => JSONDecodeError (lit "Extra data")
    end
  | Syntax => JSONDecodeError (lit "Expecting value")
  | Failed e => LoadsRaised e
  end.

Definition cstr (s : string) : c_char_p := Some (byte_of_ascii <$> list_ascii_of_string s).

(** A library that accepts every client and signs everything, counting the
    calls it has served. *)
Definition signing : Signer nat :=
  {| CreateClient := λ _ _ _ _ _ n, (None, S n);
     SignCreateOrder := λ _ _ _ _ _ _ _ _ _ _ _ _ _ n,
       ({| SignedTxResponse.txType := 14;
           SignedTxResponse.txInfo := cstr "{order}";
           SignedTxResponse.txHash := cstr "0xabc";
           SignedTxResponse.messageToSign := None;
           SignedTxResponse.err := None |}, S n);
     SignCancelOrder := λ _ _ _ _ _ n,
       ({| SignedTxResponse.txType := 15;
           SignedTxResponse.txInfo := cstr "{cancel}";
           SignedTxResponse.txHash := cstr "0xdef";
           SignedTxResponse.messageToSign := None;
           SignedTxResponse.err := None |}, S n);
     SignCancelAllOrders := λ _ _ _ _ _ n,
       ({| SignedTxResponse.txType := 16;
           SignedTxResponse.txInfo := cstr "{cancel_all}";
           SignedTxResponse.txHash := cstr "0x123";
           SignedTxResponse.messageToSign := None;
           SignedTxResponse.err := None |}, S n);
     CreateAuthToken := λ _ _ _ n,
       ({| StrOrErr.str := cstr "token"; StrOrErr.err := None |}, S n) |}.

(** A library whose every operation reports the given error. *)
Definition failing (message : c_char_p) : Signer nat :=
  {| CreateClient := λ _ _ _ _ _ n, (message, S n);
     SignCreateOrder := λ _ _ _ _ _ _ _ _ _ _ _ _ _ n,
       ({| SignedTxResponse.txType := 0;
           SignedTxResponse.txInfo := None;
           SignedTxResponse.txHash := None;
           SignedTxResponse.messageToSign := None;
           SignedTxResponse.err := message |}, S n);
     SignCancelOrder := λ _ _ _ _ _ n,
       ({| SignedTxResponse.txType := 0;
           SignedTxResponse.txInfo := None;
           SignedTxResponse.txHash := None;
           SignedTxResponse.messageToSign := None;
           SignedTxResponse.err := message |}, S n);
     SignCancelAllOrders := λ _ _ _ _ _ n,
       ({| SignedTxResponse.txType := 0;
           SignedTxResponse.txInfo := None;
           SignedTxResponse.txHash := None;
           SignedTxResponse.messageToSign := None;
           SignedTxResponse.err := message |}, S n);
     CreateAuthToken := λ _ _ _ n,
       ({| StrOrErr.str := None; StrOrErr.err := message |}, S n) |}.

(** Sample requests. *)
#[local] Open Scope string_scope.

Definition object (entries : list (string * value)) : gmap pystr value :=
  list_to_map (prod_map lit id <$> entries).

Definition credentials : gmap pystr value :=
  object [ ("apiKeyIndex", VInt 0); ("baseUrl", VStr (lit "https://x"));
           ("privateKey", VStr (lit "0xabc")); ("chainId", VInt 1);
           ("accountIndex", VInt 5) ].

Definition bad_credentials : gmap pystr value :=
  object [ ("apiKeyIndex", VInt 0); ("baseUrl", VStr (lit "https://x"));
           ("privateKey", VStr (lit "0xabc"));
           ("chainId", VStr (lit "mainnet")); ("accountIndex", VInt 5) ].

Definition cancel_order_99 : gmap pystr value :=
  object [ ("apiKeyIndex", VInt 99); ("marketIndex", VInt 1);
           ("orderIndex", VInt 1); ("nonce", VInt 1);
           ("accountIndex", VInt 1) ].

Definition create_client_line : pystr :=
  text "{'id':1,'method':'create_client','params':{'apiKeyIndex':0,'baseUrl':'https://x','privateKey':'0xabc','chainId':1,'accountIndex':5}}".

Definition bad_create_client_line : pystr :=
  text "{'id':8,'method':'create_client','params':{'apiKeyIndex':0,'baseUrl':'https://x','privateKey':'0xabc','chainId':'mainnet','accountIndex':5}}".

Definition cancel_order_line : pystr :=
  text "{'id':7,'method':'sign_cancel_order','params':{'apiKeyIndex':0,'baseUrl':'https://x','privateKey':'0xabc','chainId':1,'accountIndex':5,'marketIndex':1,'orderIndex':1,'nonce':1}}".

Definition unknown_method_line : pystr := text "{'id':3,'method':'nope'}".

Definition malformed_line : pystr := text "{'id':4,".

Definition blank_line : pystr := lit "   ".

Definition array_line : pystr := text "[1]".

Definition list_method_line : pystr := text "{'id':1,'method':[]}".

Definition string_line : pystr := text "'ready'".

(** Two thousand opening brackets. *)
Definition deep_line : pystr := replicate 2000 91%N.

(** A request whose id is a numeral of five thousand digits. *)
Definition long_number_line : pystr :=
  (text "{'id':" ++ replicate 5000 57%N ++ text ",'method':'nope'}")%list.

Definition numeric_url_credentials : gmap pystr value :=
  object [ ("apiKeyIndex", VInt 0); ("baseUrl", VInt 5);
           ("privateKey", VStr (lit "0xabc")); ("chainId", VInt 1);
           ("accountIndex", VInt 5) ].

(** A private key holding a lone surrogate, as the JSON text [\ud800]
    gives. *)
Definition surrogate_key_credentials : gmap pystr value :=
  object [ ("apiKeyIndex", VInt 0); ("baseUrl", VStr (lit "https://x"));
           ("privateKey", VStr [0xD800%N]); ("chainId", VInt 1);
           ("accountIndex", VInt 5) ].

Definition numeric_url_line : pystr :=
  text "{'id':9,'method':'create_client','params':{'apiKeyIndex':0,'baseUrl':5,'privateKey':'0xabc','chainId':1,'accountIndex':5}}".

#[local] Close Scope string_scope.

End Sample.

Section Bridge.

(** The interpreter's side of things that the bridge only uses: [int] on a
    [str] ([None] when it raises ValueError), [str] on an exception and on
    the values other than text, and the JSON parser. *)
Variable int_of_str : pystr → option Z.
Variable exc_str : exn → pystr.
Variable repr : value → pystr.
Variable json_loads : pystr → loads_result.

(** The loaded library. *)
Context {L : Type} {LIB : Signer L}.

(** [int(v)] *)
Definition py_int (v : value) : res Z :=
  match v with
  | VInt z => Ok z
  | VBool b => Ok (if b then 1 else 0)
  | VFloat f => int_of_float f
  | VStr s =>
    match int_of_str s with
    | Some z => Ok z
    | None => Raise (ValueError v)
    end
  | VNone | VList _ | VDict _ => Raise (TypeError v)
  end.

(** [f"{v}"] *)
Definition format (v : value) : pystr :=
  match v with
  | VStr s => s
  | VNone => lit "None"
  | VBool true => lit "True"
  | VBool false => lit "False"
  | _ => repr v
  end.

(** The module's mutable state, the library's own state, and the calls made
    into the library so far (oldest first). *)
Record state : Type :=
  { _CLIENT_CONFIG : gmap Z config;
    _INITIALISED_KEYS : gset Z;
    lib : L;
    calls : list call }.

(** Computations that read and write the state and may raise; what was
    written before an exception stays written. *)
Definition M (A : Type) : Type := state → res A * state.

#[local] Instance M_ret : MRet M := λ A a st, (Ok a, st).

#[local] Instance M_bind : MBind M := λ A B k m st,
  match m st with
  | (Ok a, st') => k a st'
  | (Raise e, st') => (Raise e, st')
  end.

Definition lift {A} (r : res A) : M A := λ st, (r, st).

Definition store_config (k : Z) (c : config) : M unit := λ st,
  (Ok (),
   {| _CLIENT_CONFIG := <[k := c]> (_CLIENT_CONFIG st);
      _INITIALISED_KEYS := _INITIALISED_KEYS st;
      lib := lib st;
      calls := calls st |}).

Definition mark_initialised (k : Z) : M unit := λ st,
  (Ok (),
   {| _CLIENT_CONFIG := _CLIENT_CONFIG st;
      _INITIALISED_KEYS := {[k]} ∪ _INITIALISED_KEYS st;
      lib := lib st;
      calls := calls st |}).

(** A call into the library: it is logged, and the library moves on. *)
Definition foreign {A} (c : call) (f : L → A * L) : M A := λ st,
  let '(a, l) := f (lib st) in
  (Ok a,
   {| _CLIENT_CONFIG := _CLIENT_CONFIG st;
      _INITIALISED_KEYS := _INITIALISED_KEYS st;
      lib := l;
      calls := calls st ++ [c] |}).

(** The state the module starts in, around a freshly loaded library. *)
Definition initial (l : L) : state :=
  {| _CLIENT_CONFIG := ∅; _INITIALISED_KEYS := ∅; lib := l; calls := [] |}.

(** [int(params[key])] *)
Definition int_param (params : value) (key : string) : M Z :=
  lift (res_bind (getitem params (lit key)) py_int).

(** The part of [_ensure_client] after [config] has been settled. *)
Definition connect (api_key_index : Z) (config : option config)
    : M response :=
  match config with
  | None => mret {[ lit "error" := VStr (lit "client_not_initialized") ]}
  | Some config =>
    url ← lift (encode_utf8 (baseUrl config));
    key ← lift (encode_utf8 (privateKey config));
    err_ptr ← foreign
      (CallCreateClient url key (c_int (chainId config))
         (c_int api_key_index) (c_longlong (accountIndex config)))
      (CreateClient url key (c_int (chainId config))
         (c_int api_key_index) (c_longlong (accountIndex config)));
    outcome ← lift (_maybe_error err_ptr);
    if has_key (lit "error") outcome then mret outcome
    else
      _ ← mark_initialised api_key_index;
      mret {[ lit "result" := VStr (lit "ok") ]}
  end.

(** [params["apiKeyIndex"]] is evaluated first and raises TypeError unless
    [params] is a dict, so the membership tests only ever see a dict. *)
Definition _ensure_client (params : value) : M response :=
  match params with
  | VDict d =>
    api_key_index ← int_param params "apiKeyIndex";
    stored ← (λ st, (Ok (_CLIENT_CONFIG st !! api_key_index), st));
    config ←
      (if has_key (lit "baseUrl") d && has_key (lit "privateKey") d then
         base_url ← lift (getitem params (lit "baseUrl"));
         private_key ← lift (getitem params (lit "privateKey"));
         chain_id ← int_param params "chainId";
         account_index ← int_param params "accountIndex";
         let config :=
           {| baseUrl := base_url; privateKey := private_key;
              chainId := chain_id; accountIndex := account_index |} in
         _ ← store_config api_key_index config;
         mret (Some config)
       else mret stored);
    connect api_key_index config
  | _ => lift (Raise (TypeError params))
  end.

Definition handle_create_client (params : value) : M response :=
  _ensure_client params.

Definition handle_sign_create_order (params : value) : M response :=
  ensure ← _ensure_client params;
  if has_key (lit "error") ensure then mret ensure
  else
    api_key_index ← int_param params "apiKeyIndex";
    expiry ← int_param params "orderExpiry";
    market_index ← int_param params "marketIndex";
    client_order_index ← int_param params "clientOrderIndex";
    base_amount ← int_param params "baseAmount";
    price ← int_param params "price";
    is_ask ← int_param params "isAsk";
    order_type ← int_param params "orderType";
    time_in_force ← int_param params "timeInForce";
    reduce_only ← int_param params "reduceOnly";
    trigger_price ← int_param params "triggerPrice";
    nonce ← int_param params "nonce";
    account_index ← int_param params "accountIndex";
    result ← foreign
      (CallSignCreateOrder (c_int market_index)
         (c_longlong client_order_index) (c_longlong base_amount)
         (c_int price) (c_int is_ask) (c_int order_type)
         (c_int time_in_force) (c_int reduce_only) (c_int trigger_price)
         (c_longlong expiry) (c_longlong nonce) (c_int api_key_index)
         (c_longlong account_index))
      (SignCreateOrder (c_int market_index)
         (c_longlong client_order_index) (c_longlong base_amount)
         (c_int price) (c_int is_ask) (c_int order_type)
         (c_int time_in_force) (c_int reduce_only) (c_int trigger_price)
         (c_longlong expiry) (c_longlong nonce) (c_int api_key_index)
         (c_longlong account_index));
    lift (_unwrap (Composite result)).

Definition handle_sign_cancel_order (params : value) : M response :=
  ensure ← _ensure_client params;
  if has_key (lit "error") ensure then mret ensure
  else
    api_key_index ← int_param params "apiKeyIndex";
    market_index ← int_param params "marketIndex";
    order_index ← int_param params "orderIndex";
    nonce ← int_param params "nonce";
    account_index ← int_param params "accountIndex";
    result ← foreign
      (CallSignCancelOrder (c_int market_index) (c_longlong order_index)
         (c_longlong nonce) (c_int api_key_index)
         (c_longlong account_index))
      (SignCancelOrder (c_int market_index) (c_longlong order_index)
         (c_longlong nonce) (c_int api_key_index)
         (c_longlong account_index));
    lift (_unwrap (Composite result)).

Definition handle_sign_cancel_all (params : value) : M response :=
  ensure ← _ensure_client params;
  if has_key (lit "error") ensure then mret ensure
  else
    api_key_index ← int_param params "apiKeyIndex";
    time_in_force ← int_param params "timeInForce";
    scheduled_time ← int_param params "scheduledTime";
    nonce ← int_param params "nonce";
    account_index ← int_param params "accountIndex";
    result ← foreign
      (CallSignCancelAllOrders (c_int time_in_force)
         (c_longlong scheduled_time) (c_longlong nonce)
         (c_int api_key_index) (c_longlong account_index))
      (SignCancelAllOrders (c_int time_in_force)
         (c_longlong scheduled_time) (c_longlong nonce)
         (c_int api_key_index) (c_longlong account_index));
    lift (_unwrap (Composite result)).

Definition handle_create_auth_token (params : value) : M response :=
  ensure ← _ensure_client params;
  if has_key (lit "error") ensure then mret ensure
  else
    api_key_index ← int_param params "apiKeyIndex";
    deadline ← int_param params "deadlineMs";
    account_index ← int_param params "accountIndex";
    result ← foreign
      (CallCreateAuthToken (c_longlong deadline) (c_int api_key_index)
         (c_longlong account_index))
      (CreateAuthToken (c_longlong deadline) (c_int api_key_index)
         (c_longlong account_index));
    lift (_unwrap (Simple result)).

Definition HANDLERS : gmap pystr (value → M response) :=
  <[ lit "create_client" := handle_create_client ]>
  (<[ lit "sign_create_order" := handle_sign_create_order ]>
  (<[ lit "sign_cancel_order" := handle_sign_cancel_order ]>
  (<[ lit "sign_cancel_all" := handle_sign_cancel_all ]>
  (<[ lit "create_auth_token" := handle_create_auth_token ]> ∅)))).

(** [HANDLERS.get(method)]: an unhashable key raises, a key that is no
    text is simply not there. *)
Definition HANDLERS_get (method : value)
    : res (option (value → M response)) :=
  match method with
  | VStr name => Ok (HANDLERS !! name)
  | _ => if hashable method then Ok None else Raise (TypeError method)
  end.

(** The body of the loop in [main] for one line of input: the lines
    printed, the exception that escapes (if one does), and the state
    afterwards. *)
Definition serve (line : pystr) (st : state)
    : list response * option exn * state :=
  let line := strip line in
  match line with
  | [] => ([], None, st)
  | _ :: _ =>
    match json_loads line with
    | JSONDecodeError msg =>
      ([ <[ lit "id" := VNone ]>
           {[ lit "error" := VStr (lit "invalid_json:" ++ msg) ]} ],
       None, st)
    | LoadsRaised e => ([], Some e, st)
    | Loaded (VDict request) =>
      let req_id := default VNone (request !! lit "id") in
      let method := default VNone (request !! lit "method") in
      let params := default (VDict ∅) (request !! lit "params") in
      match HANDLERS_get method with
      | Raise e => ([], Some e, st)
      | Ok None =>
        ([ <[ lit "id" := req_id ]>
             {[ lit "error" :=
                  VStr (lit "unknown_method:" ++ format method) ]} ],
         None, st)
      | Ok (Some handler) =>
        match handler params st with
        | (Ok outcome, st') =>
          ([ setdefault (lit "id") req_id outcome ], None, st')
        | (Raise e, st') =>
          ([ <[ lit "id" := req_id ]>
               {[ lit "error" := VStr (lit "exception:" ++ exc_str e) ]} ],
           None, st')
        end
      end
    | Loaded request =>
      ([], Some (AttributeError request (lit "get")), st)
    end
  end.

(** [main], on the lines that standard input delivers. *)
Fixpoint main (stdin : list pystr) (st : state)
    : list response * exit * state :=
  match stdin with
  | [] => ([], EndOfInput, st)
  | line :: stdin' =>
    match serve line st with
    | (out, Some e, st') => (out, Uncaught e, st')
    | (out, None, st') =>
      let '(out', how, st'') := main stdin' st' in
      (out ++ out', how, st'')
    end
  end.

(** ** Notions used to state the properties *)

(** The three forms a handler's result takes. *)
Inductive outcome_shape : response → Prop :=
| shape_error (e : pystr) : outcome_shape {[ lit "error" := VStr e ]}
| shape_result (v : value) : outcome_shape {[ lit "result" := v ]}
| shape_signed (tx_info tx_hash msg : value) :
    outcome_shape (<[ lit "result" := tx_info ]>
                   (<[ lit "txHash" := tx_hash ]>
                    {[ lit "messageToSign" := msg ]})).

(** Every value a computation returns satisfies [P]. *)
Definition returns {A} (m : M A) (P : A → Prop) : Prop :=
  ∀ st a st', m st = (Ok a, st') → P a.

(** [int(params[key])] succeeds: the entry is there and can be coerced. *)
Definition coercible (d : gmap pystr value) (key : string) : Prop :=
  ∃ v z, d !! lit key = Some v ∧ py_int v = Ok z.

(** The params supply credentials: both [baseUrl] and [privateKey] are in. *)
Definition supplied (d : gmap pystr value) : Prop :=
  is_Some (d !! lit "baseUrl") ∧ is_Some (d !! lit "privateKey").

(** The configuration in effect for key [k] once the overwrite step of
    [_ensure_client] is past: the one built from the params when they supply
    credentials, the stored one otherwise. *)
Definition in_effect (d : gmap pystr value) (k : Z) (st : state)
    (cfg : config) : Prop :=
  (supplied d ∧
   d !! lit "baseUrl" = Some (baseUrl cfg) ∧
   d !! lit "privateKey" = Some (privateKey cfg) ∧
   res_bind (getitem (VDict d) (lit "chainId")) py_int = Ok (chainId cfg) ∧
   res_bind (getitem (VDict d) (lit "accountIndex")) py_int
     = Ok (accountIndex cfg))
  ∨ (¬ supplied d ∧ _CLIENT_CONFIG st !! k = Some cfg).

(** What a run that concerns key [k] may do to the state: store or replace
    the configuration of [k] and nothing else, add [k] to the initialised
    keys and nothing else, and append to the log of calls. *)
Definition touches_only (k : Z) (st st' : state) : Prop :=
  (∀ k', k' ≠ k → _CLIENT_CONFIG st' !! k' = _CLIENT_CONFIG st !! k') ∧
  (is_Some (_CLIENT_CONFIG st !! k) → is_Some (_CLIENT_CONFIG st' !! k)) ∧
  _INITIALISED_KEYS st ⊆ _INITIALISED_KEYS st' ∧
  _INITIALISED_KEYS st' ⊆ {[k]} ∪ _INITIALISED_KEYS st ∧
  ∃ new, calls st' = calls st ++ new.

(** Every run of [m] stays within [touches_only k]. *)
Definition confined {A} (k : Z) (m : M A) : Prop :=
  ∀ st r st', m st = (r, st') → touches_only k st st'.

(** The privileged methods: those that reach a signing operation. *)
Definition privileged : list pystr :=
  [ lit "sign_create_order"; lit "sign_cancel_order";
    lit "sign_cancel_all"; lit "create_auth_token" ].

(** ** Notions for the properties of whole runs *)

(** The apiKeyIndex argument of a call into the library. *)
Definition api_key_of (c : call) : Z :=
  match c with
  | CallCreateClient _ _ _ k _ => k
  | CallSignCreateOrder _ _ _ _ _ _ _ _ _ _ _ k _ => k
  | CallSignCancelOrder _ _ _ k _ => k
  | CallSignCancelAllOrders _ _ _ k _ => k
  | CallCreateAuthToken _ k _ => k
  end.

(** The privileged operations of the library: all but CreateClient. *)
Definition is_signing (c : call) : bool :=
  match c with
  | CallCreateClient _ _ _ _ _ => false
  | _ => true
  end.

(** [int(params[key])] as a value. *)
Definition param_int (params : value) (key : string) : res Z :=
  res_bind (getitem params (lit key)) py_int.

(** What one request does to the log of calls and to the module's
    containers: it removes nothing, and either calls nothing, or calls
    CreateClient once for its key [k], or calls CreateClient and then one
    privileged operation, both for [k]; [k] joins the initialised keys only
    together with such a CreateClient call and only when a configuration is
    stored for it. *)
Definition request_effect (st st' : state) : Prop :=
  (∀ k, is_Some (_CLIENT_CONFIG st !! k) → is_Some (_CLIENT_CONFIG st' !! k))
  ∧ _INITIALISED_KEYS st ⊆ _INITIALISED_KEYS st'
  ∧ ((calls st' = calls st ∧ _INITIALISED_KEYS st' = _INITIALISED_KEYS st)
     ∨ ∃ k c,
         is_signing c = false ∧ api_key_of c = c_int k ∧
         is_Some (_CLIENT_CONFIG st' !! k) ∧
         _INITIALISED_KEYS st' ⊆ {[k]} ∪ _INITIALISED_KEYS st ∧
         (calls st' = calls st ++ [c]
          ∨ ∃ s, is_signing s = true ∧ api_key_of s = c_int k ∧
                 calls st' = calls st ++ [c; s])).

(** A log in which every privileged call directly follows a CreateClient
    call for the same key. *)
Definition guarded (log : list call) : Prop :=
  ∀ before s after,
    log = before ++ s :: after → is_signing s = true →
    ∃ before' c,
      before = before' ++ [c] ∧ is_signing c = false ∧
      api_key_of c = api_key_of s.

(** The state of a run in good order: every initialised key has a stored
    configuration and a CreateClient call in the log, and the log is
    guarded. *)
Definition consistent (st : state) : Prop :=
  (∀ k, k ∈ _INITIALISED_KEYS st →
        is_Some (_CLIENT_CONFIG st !! k) ∧
        ∃ c, c ∈ calls st ∧ is_signing c = false ∧ api_key_of c = c_int k)
  ∧ guarded (calls st).

(** A computation that leaves the module's containers alone and makes at
    most one call, a privileged one for key [k]. *)
Definition signs_for {A} (k : Z) (m : M A) : Prop :=
  ∀ st r st', m st = (r, st') →
    _CLIENT_CONFIG st' = _CLIENT_CONFIG st ∧
    _INITIALISED_KEYS st' = _INITIALISED_KEYS st ∧
    (calls st' = calls st
     ∨ ∃ s, is_signing s = true ∧ api_key_of s = c_int k ∧
            calls st' = calls st ++ [s]).

(** A line the loop can deal with: blank, or one on which [json.loads]
    raises JSONDecodeError, or one for which it returns a dict whose method
    can be looked up. *)
Definition servable (line : pystr) : Prop :=
  strip line = []
  ∨ (∃ msg, json_loads (strip line) = JSONDecodeError msg)
  ∨ (∃ request,
       json_loads (strip line) = Loaded (VDict request) ∧
       hashable (default VNone (request !! lit "method")) = true).

(** The lines that are not blank. *)
Definition non_blank (stdin : list pystr) : list pystr :=
  filter (λ line, strip line ≠ []) stdin.

(** The methods that sign a transaction. *)
Definition transaction_methods : list pystr :=
  [ lit "sign_create_order"; lit "sign_cancel_order"; lit "sign_cancel_all" ].

(** The two forms the outcome of a transaction method takes, and the two
    forms the outcome of the other methods takes. *)
Inductive signed_shape : response → Prop :=
| signed_error (e : pystr) : signed_shape {[ lit "error" := VStr e ]}
| signed_ok (tx_info tx_hash msg : value) :
    signed_shape (<[ lit "result" := tx_info ]>
                  (<[ lit "txHash" := tx_hash ]>
                   {[ lit "messageToSign" := msg ]})).

Inductive plain_shape : response → Prop :=
| plain_error (e : pystr) : plain_shape {[ lit "error" := VStr e ]}
| plain_result (v : value) : plain_shape {[ lit "result" := v ]}.

(** [s] is the C string at [p] decoded with replacement: the text strict
    decoding gives when it gives one, and otherwise a text that holds
    U+FFFD. *)
Definition lossy_text (p : c_char_p) (s : pystr) : Prop :=
  Codec.decode Codec.Replace (string_at p) = Ok s ∧
  (Codec.decode Codec.Strict (string_at p) = Ok s
   ∨ (Codec.decode Codec.Strict (string_at p)
        = Raise (UnicodeDecodeError (string_at p)) ∧
      Codec.REPLACEMENT_CHARACTER ∈ s)).

(** What a field of a composite result contributes: its text decoded with
    replacement when it is a non-empty string, [None] otherwise. *)
Definition field_text (p : c_char_p) (v : value) : Prop :=
  if truthy p then ∃ s, lossy_text p s ∧ v = VStr s else v = VNone.

(** The exception with which a line that is not blank escapes the loop:
    the one [json.loads] raises when it is no JSONDecodeError, the one
    [request.get] raises when the document is no object, the one
    [HANDLERS.get] raises when the method cannot be hashed. *)
Definition escapes (line : pystr) (e : exn) : Prop :=
  strip line ≠ [] ∧
  (json_loads (strip line) = LoadsRaised e
   ∨ (∃ document,
        json_loads (strip line) = Loaded document ∧
        (∀ request, document ≠ VDict request) ∧
        e = AttributeError document (lit "get"))
   ∨ (∃ request,
        json_loads (strip line) = Loaded (VDict request) ∧
        hashable (default VNone (request !! lit "method")) = false ∧
        e = TypeError (default VNone (request !! lit "method")))).

(** ** The decoder never fails in replacement mode *)

Lemma res_map_Ok {A B} (f : A → B) (r : res A) :
  (∃ a, r = Ok a) → ∃ b, res_map f r = Ok b.
Proof. intros [a ->]. by eexists. Qed.

Lemma malformed_replace_Ok all (r : res pystr) :
  (∃ s, r = Ok s) → ∃ s, Codec.malformed Codec.Replace all r = Ok s.
Proof. intros [s ->]. by eexists. Qed.

Lemma decode_from_replace_bounded (n : nat) :
  ∀ all bs, (length bs ≤ n)%nat →
    ∃ s, Codec.decode_from Codec.Replace all bs = Ok s.
Proof.
  induction n as [|n IH]; intros all bs Hlen.
  - destruct bs; [by eexists | simpl in Hlen; lia].
  - destruct bs as [|b0 r0]; [by eexists|].
    simpl in Hlen.
    assert (∀ r, (length r ≤ length r0)%nat →
                 ∃ s, Codec.decode_from Codec.Replace all r = Ok s) as Hrec
      by (intros r Hr; apply IH; lia).
    cbn [Codec.decode_from].
    repeat case_match; subst; simpl in Hrec;
      first [ apply res_map_Ok | apply malformed_replace_Ok ];
      first [ by eexists | apply Hrec; simpl; lia ].
Qed.

Lemma decode_replace_total (p : c_char_p) : ∃ s, decode_replace p = Ok s.
Proof.
  unfold decode_replace, Codec.decode.
  by eapply decode_from_replace_bounded.
Qed.

Lemma decode_or_none_total (p : c_char_p) : ∃ v, decode_or_none p = Ok v.
Proof.
  unfold decode_or_none. destruct (truthy p); [|by eexists].
  destruct (decode_replace_total p) as [s ->]. by eexists.
Qed.

(** Where strict decoding succeeds, replacement changes nothing; where it
    would raise, the replaced text carries U+FFFD. *)
Lemma decode_from_replace_strict (n : nat) :
  ∀ all bs, (length bs ≤ n)%nat →
    ∃ s, Codec.decode_from Codec.Replace all bs = Ok s ∧
         (Codec.decode_from Codec.Strict all bs = Ok s ∨
          (Codec.decode_from Codec.Strict all bs = Raise (UnicodeDecodeError all)
           ∧ Codec.REPLACEMENT_CHARACTER ∈ s)).
Proof.
  induction n as [|n IH]; intros all bs Hlen.
  - destruct bs; [exists []; auto | simpl in Hlen; lia].
  - destruct bs as [|b0 r0]; [exists []; auto|].
    simpl in Hlen.
    assert (∀ r, (length r ≤ length r0)%nat →
      ∃ s, Codec.decode_from Codec.Replace all r = Ok s ∧
         (Codec.decode_from Codec.Strict all r = Ok s ∨
          (Codec.decode_from Codec.Strict all r = Raise (UnicodeDecodeError all)
           ∧ Codec.REPLACEMENT_CHARACTER ∈ s))) as Hrec
      by (intros r Hr; apply IH; lia).
    cbn [Codec.decode_from].
    repeat case_match; subst; simpl in Hrec; unfold Codec.malformed;
      try (eexists; split; [reflexivity | right; split; [reflexivity | set_solver]]);
      match goal with
      | |- context [Codec.decode_from Codec.Replace all ?r] =>
        destruct (Hrec r) as (s & -> & [Hs | [Hs Hin]]); [simpl; lia | |];
        try rewrite Hs; simpl;
        (eexists; split; [reflexivity |]);
        first [ by left | right; split; [reflexivity | set_solver] ]
      end.
Qed.

Lemma decode_or_none_cases (p : c_char_p) (v : value) :
  decode_or_none p = Ok v →
  (truthy p = true ∧ ∃ s, decode_replace p = Ok s ∧ v = VStr s)
  ∨ (truthy p = false ∧ v = VNone).
Proof.
  unfold decode_or_none. destruct (truthy p); [|intros [= <-]; by right].
  destruct (decode_replace_total p) as [s Hs]. rewrite Hs. simpl.
  intros [= <-]. left. eauto.
Qed.

Lemma lossy_text_total (p : c_char_p) :
  ∃ s, decode_replace p = Ok s ∧ lossy_text p s.
Proof.
  unfold decode_replace, lossy_text, Codec.decode.
  destruct (decode_from_replace_strict (length (string_at p)) (string_at p)
              (string_at p)) as (s & Hs & Hcases); [done|].
  exists s. by rewrite Hs.
Qed.

Lemma field_text_total (p : c_char_p) :
  ∃ v, decode_or_none p = Ok v ∧ field_text p v.
Proof.
  unfold decode_or_none, field_text. destruct (truthy p); [|by eexists].
  destruct (lossy_text_total p) as (s & -> & Hs). simpl. eauto.
Qed.

(** ** The result unwrapper *)

(** C5. Whatever bytes the library hands back, [_maybe_error] and
    [_unwrap] return a response and never raise, and every text in that
    response is the C string decoded with replacement handling: the text
    strict decoding gives where the bytes are well-formed UTF-8, and a text
    holding U+FFFD where strict decoding would raise. *)
Theorem unwrap_never_raises :
  (∀ bs : pybytes, ∃ s,
      Codec.decode Codec.Replace bs = Ok s ∧
      (Codec.decode Codec.Strict bs = Ok s ∨
       (Codec.decode Codec.Strict bs = Raise (UnicodeDecodeError bs) ∧
        Codec.REPLACEMENT_CHARACTER ∈ s)))
  ∧ (∀ ptr : c_char_p, ∃ resp,
       _maybe_error ptr = Ok resp ∧
       (truthy ptr = true →
        ∃ s, lossy_text ptr s ∧ resp = {[ lit "error" := VStr s ]}))
  ∧ (∀ r : StrOrErr.t, ∃ resp,
       _unwrap (Simple r) = Ok resp ∧
       (truthy (StrOrErr.err r) = true →
        ∃ s, lossy_text (StrOrErr.err r) s ∧
             resp = {[ lit "error" := VStr s ]}) ∧
       (truthy (StrOrErr.err r) = false → truthy (StrOrErr.str r) = true →
        ∃ s, lossy_text (StrOrErr.str r) s ∧
             resp = {[ lit "result" := VStr s ]}))
  ∧ (∀ r : SignedTxResponse.t, ∃ resp,
       _unwrap (Composite r) = Ok resp ∧
       (truthy (SignedTxResponse.err r) = true →
        ∃ s, lossy_text (SignedTxResponse.err r) s ∧
             resp = {[ lit "error" := VStr s ]}) ∧
       (truthy (SignedTxResponse.err r) = false →
        ∃ tx_info tx_hash msg,
          field_text (SignedTxResponse.txInfo r) tx_info ∧
          field_text (SignedTxResponse.txHash r) tx_hash ∧
          field_text (SignedTxResponse.messageToSign r) msg ∧
          resp = <[ lit "result" := tx_info ]>
                   (<[ lit "txHash" := tx_hash ]>
                    {[ lit "messageToSign" := msg ]}))).
Proof.
  split; [|split; [|split]].
  - intros bs. unfold Codec.decode.
    by eapply decode_from_replace_strict.
  - intros ptr. unfold _maybe_error.
    destruct (truthy ptr); [|by eexists].
    destruct (lossy_text_total ptr) as (s & -> & Hs).
    eexists. split; [done|]. eauto.
  - intros r. unfold _unwrap.
    destruct (truthy (StrOrErr.err r)).
    { destruct (lossy_text_total (StrOrErr.err r)) as (s & -> & Hs).
      eexists. split; [done|]. split; [eauto | done]. }
    destruct (truthy (StrOrErr.str r)).
    { destruct (lossy_text_total (StrOrErr.str r)) as (s & -> & Hs).
      eexists. split; [done|]. split; [done | eauto]. }
    eexists. split; [done|]. split; done.
  - intros r. unfold _unwrap.
    destruct (truthy (SignedTxResponse.err r)).
    { destruct (lossy_text_total (SignedTxResponse.err r)) as (s & -> & Hs).
      eexists. split; [done|]. split; [eauto | done]. }
    destruct (field_text_total (SignedTxResponse.txInfo r)) as (a & -> & Ha).
    destruct (field_text_total (SignedTxResponse.txHash r)) as (b & -> & Hb).
    destruct (field_text_total (SignedTxResponse.messageToSign r))
      as (c & -> & Hc).
    eexists. split; [done|]. split; [done|]. intros _. by exists a, b, c.
Qed.

(** What a field contributes to a composite response: its text when it is
    a non-empty string, [None] otherwise. *)
Lemma decode_or_none_text (p : c_char_p) :
  ∃ v, decode_or_none p = Ok v ∧
       (if truthy p then ∃ s, decode_replace p = Ok s ∧ v = VStr s
        else v = VNone).
Proof.
  destruct (decode_or_none_total p) as [v Hv]. exists v. split; [done|].
  destruct (decode_or_none_cases p v Hv) as [[-> ?]|[-> ?]]; done.
Qed.


(** ** Reasoning about computations *)

Lemma returns_ret {A} (a : A) (P : A → Prop) : P a → returns (mret a) P.
Proof. intros Ha st a' st' [= <- _]. done. Qed.

Lemma returns_lift {A} (r : res A) (P : A → Prop) :
  (∀ a, r = Ok a → P a) → returns (lift r) P.
Proof. intros Hr st a st' [= -> _]. by apply Hr. Qed.

Lemma returns_bind_post {A B} (m : M A) (k : A → M B) (Q : A → Prop)
    (P : B → Prop) :
  returns m Q → (∀ a, Q a → returns (k a) P) → returns (m ≫= k) P.
Proof.
  intros Hm Hk st b st'. unfold mbind, M_bind.
  destruct (m st) as [[a|e] st1] eqn:E; [|done].
  apply Hk. by eapply Hm.
Qed.

Lemma returns_bind {A B} (m : M A) (k : A → M B) (P : B → Prop) :
  (∀ a, returns (k a) P) → returns (m ≫= k) P.
Proof.
  intros Hk. apply returns_bind_post with (Q := λ _, True); [done | auto].
Qed.

Lemma unwrap_shape (result : foreign_result) (resp : response) :
  _unwrap result = Ok resp → outcome_shape resp.
Proof.
  unfold _unwrap. destruct result as [r|r]; repeat case_match;
    unfold res_bind; repeat case_match; intros [= <-]; constructor.
Qed.

Lemma maybe_error_shape (ptr : c_char_p) (resp : response) :
  _maybe_error ptr = Ok resp → outcome_shape resp.
Proof.
  unfold _maybe_error. case_match; unfold res_bind; repeat case_match;
    intros [= <-]; constructor.
Qed.

Lemma connect_shape (k : Z) (c : option config) :
  returns (connect k c) outcome_shape.
Proof.
  unfold connect. destruct c as [c|]; [|apply returns_ret; constructor].
  do 3 (apply returns_bind; intros).
  apply returns_bind_post with (Q := outcome_shape).
  { apply returns_lift. apply maybe_error_shape. }
  intros o Ho. destruct (has_key _ o); [by apply returns_ret|].
  apply returns_bind; intros. apply returns_ret. constructor.
Qed.

Lemma ensure_client_shape (params : value) :
  returns (_ensure_client params) outcome_shape.
Proof.
  unfold _ensure_client. destruct params; try (by apply returns_lift).
  do 3 (apply returns_bind; intros). apply connect_shape.
Qed.

Lemma HANDLERS_lookup (name : pystr) (handler : value → M response) :
  HANDLERS !! name = Some handler →
  (name = lit "create_client" ∧ handler = handle_create_client)
  ∨ (name = lit "sign_create_order" ∧ handler = handle_sign_create_order)
  ∨ (name = lit "sign_cancel_order" ∧ handler = handle_sign_cancel_order)
  ∨ (name = lit "sign_cancel_all" ∧ handler = handle_sign_cancel_all)
  ∨ (name = lit "create_auth_token" ∧ handler = handle_create_auth_token).
Proof.
  unfold HANDLERS. intros H.
  apply lookup_insert_Some in H as [[<- <-]|[_ H]]; [by left|right].
  apply lookup_insert_Some in H as [[<- <-]|[_ H]]; [by left|right].
  apply lookup_insert_Some in H as [[<- <-]|[_ H]]; [by left|right].
  apply lookup_insert_Some in H as [[<- <-]|[_ H]]; [by left|right].
  apply lookup_insert_Some in H as [[<- <-]|[_ H]]; [done|].
  by rewrite lookup_empty in H.
Qed.

Lemma handler_shape (name : pystr) (handler : value → M response)
    (params : value) :
  HANDLERS !! name = Some handler → returns (handler params) outcome_shape.
Proof.
  intros H.
  destruct (HANDLERS_lookup _ _ H) as [[_ ->]|[[_ ->]|[[_ ->]|[[_ ->]|[_ ->]]]]].
  - apply ensure_client_shape.
  - unfold handle_sign_create_order.
    apply returns_bind_post with (Q := outcome_shape);
      [apply ensure_client_shape|].
    intros o Ho. destruct (has_key _ o); [by apply returns_ret|].
    repeat (apply returns_bind; intros).
    apply returns_lift, unwrap_shape.
  - unfold handle_sign_cancel_order.
    apply returns_bind_post with (Q := outcome_shape);
      [apply ensure_client_shape|].
    intros o Ho. destruct (has_key _ o); [by apply returns_ret|].
    repeat (apply returns_bind; intros).
    apply returns_lift, unwrap_shape.
  - unfold handle_sign_cancel_all.
    apply returns_bind_post with (Q := outcome_shape);
      [apply ensure_client_shape|].
    intros o Ho. destruct (has_key _ o); [by apply returns_ret|].
    repeat (apply returns_bind; intros).
    apply returns_lift, unwrap_shape.
  - unfold handle_create_auth_token.
    apply returns_bind_post with (Q := outcome_shape);
      [apply ensure_client_shape|].
    intros o Ho. destruct (has_key _ o); [by apply returns_ret|].
    repeat (apply returns_bind; intros).
    apply returns_lift, unwrap_shape.
Qed.

Lemma unwrap_composite_shape (r : SignedTxResponse.t) (resp : response) :
  _unwrap (Composite r) = Ok resp → signed_shape resp.
Proof.
  unfold _unwrap. repeat case_match;
    unfold res_bind; repeat case_match; intros [= <-]; constructor.
Qed.

Lemma unwrap_simple_shape (r : StrOrErr.t) (resp : response) :
  _unwrap (Simple r) = Ok resp → plain_shape resp.
Proof.
  unfold _unwrap. repeat case_match;
    unfold res_bind; repeat case_match; intros [= <-]; constructor.
Qed.

Lemma maybe_error_plain (ptr : c_char_p) (resp : response) :
  _maybe_error ptr = Ok resp → plain_shape resp.
Proof.
  unfold _maybe_error. case_match; unfold res_bind; repeat case_match;
    intros [= <-]; constructor.
Qed.

Lemma connect_plain (k : Z) (c : option config) :
  returns (connect k c) plain_shape.
Proof.
  unfold connect. destruct c as [c|]; [|apply returns_ret; constructor].
  do 3 (apply returns_bind; intros).
  apply returns_bind_post with (Q := plain_shape).
  { apply returns_lift. apply maybe_error_plain. }
  intros o Ho. destruct (has_key _ o); [by apply returns_ret|].
  apply returns_bind; intros. apply returns_ret. constructor.
Qed.

Lemma ensure_client_plain (params : value) :
  returns (_ensure_client params) plain_shape.
Proof.
  unfold _ensure_client. destruct params; try (by apply returns_lift).
  do 3 (apply returns_bind; intros). apply connect_plain.
Qed.

(** What [_ensure_client] hands back when it reports an error is an error
    and nothing else. *)
Lemma plain_error_signed (o : response) :
  plain_shape o → has_key (lit "error") o = true → signed_shape o.
Proof. intros [e|v]; [constructor | done]. Qed.

Lemma plain_error_plain (o : response) :
  plain_shape o → has_key (lit "error") o = true → plain_shape o.
Proof. done. Qed.

(** A transaction method returns an error alone or the three entries of a
    signed transaction. *)
Lemma handler_signed_shape (name : pystr) (handler : value → M response)
    (params : value) :
  name ∈ transaction_methods → HANDLERS !! name = Some handler →
  returns (handler params) signed_shape.
Proof.
  intros Hname H.
  destruct (HANDLERS_lookup _ _ H)
    as [[-> ->]|[[-> ->]|[[-> ->]|[[-> ->]|[-> ->]]]]].
  - unfold transaction_methods in Hname.
    rewrite !elem_of_cons, elem_of_nil in Hname.
    vm_compute in Hname. intuition discriminate.
  - unfold handle_sign_create_order.
    apply returns_bind_post with (Q := plain_shape);
      [apply ensure_client_plain|].
    intros o Ho. destruct (has_key _ o) eqn:E;
      [by apply returns_ret, plain_error_signed|].
    repeat (apply returns_bind; intros).
    apply returns_lift, unwrap_composite_shape.
  - unfold handle_sign_cancel_order.
    apply returns_bind_post with (Q := plain_shape);
      [apply ensure_client_plain|].
    intros o Ho. destruct (has_key _ o) eqn:E;
      [by apply returns_ret, plain_error_signed|].
    repeat (apply returns_bind; intros).
    apply returns_lift, unwrap_composite_shape.
  - unfold handle_sign_cancel_all.
    apply returns_bind_post with (Q := plain_shape);
      [apply ensure_client_plain|].
    intros o Ho. destruct (has_key _ o) eqn:E;
      [by apply returns_ret, plain_error_signed|].
    repeat (apply returns_bind; intros).
    apply returns_lift, unwrap_composite_shape.
  - unfold transaction_methods in Hname.
    rewrite !elem_of_cons, elem_of_nil in Hname.
    vm_compute in Hname. intuition discriminate.
Qed.

(** The other methods return an error alone or a result alone. *)
Lemma handler_plain_shape (name : pystr) (handler : value → M response)
    (params : value) :
  name ∉ transaction_methods → HANDLERS !! name = Some handler →
  returns (handler params) plain_shape.
Proof.
  intros Hname H.
  destruct (HANDLERS_lookup _ _ H)
    as [[-> ->]|[[-> ->]|[[-> ->]|[[-> ->]|[-> ->]]]]];
    try (exfalso; apply Hname; unfold transaction_methods;
         by repeat constructor).
  - apply ensure_client_plain.
  - unfold handle_create_auth_token.
    apply returns_bind_post with (Q := plain_shape);
      [apply ensure_client_plain|].
    intros o Ho. destruct (has_key _ o) eqn:E; [by apply returns_ret|].
    repeat (apply returns_bind; intros).
    apply returns_lift, unwrap_simple_shape.
Qed.

(** ** The dispatcher *)

Lemma shape_no_id (o : response) : outcome_shape o → o !! lit "id" = None.
Proof. by intros []. Qed.

Lemma setdefault_id (o : response) (v : value) :
  outcome_shape o → setdefault (lit "id") v o = <[ lit "id" := v ]> o.
Proof. intros Ho. unfold setdefault. by rewrite shape_no_id. Qed.

(** A line holding a request whose method names a handler: the handler runs
    and its result, or the exception it raises, is what gets printed. *)
Lemma serve_handler (line : pystr) (st : state) (request : gmap pystr value)
    (name : pystr) (handler : value → M response) :
  strip line ≠ [] →
  json_loads (strip line) = Loaded (VDict request) →
  request !! lit "method" = Some (VStr name) →
  HANDLERS !! name = Some handler →
  serve line st =
    match handler (default (VDict ∅) (request !! lit "params")) st with
    | (Ok outcome, st') =>
      ([ <[ lit "id" := default VNone (request !! lit "id") ]> outcome ],
       None, st')
    | (Raise e, st') =>
      ([ <[ lit "id" := default VNone (request !! lit "id") ]>
           {[ lit "error" := VStr (lit "exception:" ++ exc_str e) ]} ],
       None, st')
    end.
Proof.
  intros Hline Hloads Hmethod Hhandler. unfold serve.
  destruct (strip line) as [|c l]; [done|].
  rewrite Hloads, Hmethod. simpl. rewrite Hhandler.
  destruct (handler _ st) as [[o|e] st'] eqn:E; [|done].
  rewrite setdefault_id; [done|].
  eapply handler_shape; eauto.
Qed.

(** C3 (as amended). The response to a request that a handler served
    without raising has an error entry and none of result, txHash and
    messageToSign, or it has a result entry and no error entry; txHash and
    messageToSign come together, and only with result. The success response
    of the three methods that sign a transaction holds result, txHash and
    messageToSign, all three; a response of create_client or
    create_auth_token holds neither txHash nor messageToSign. *)
Theorem dispatched_response_fields (line : pystr) (st st' : state)
    (request : gmap pystr value) (name : pystr)
    (handler : value → M response) (outcome : response) :
  strip line ≠ [] →
  json_loads (strip line) = Loaded (VDict request) →
  request !! lit "method" = Some (VStr name) →
  HANDLERS !! name = Some handler →
  handler (default (VDict ∅) (request !! lit "params")) st
    = (Ok outcome, st') →
  ∃ resp,
    serve line st = ([resp], None, st') ∧
    has_key (lit "error") resp = negb (has_key (lit "result") resp) ∧
    (has_key (lit "error") resp = true →
       has_key (lit "txHash") resp = false ∧
       has_key (lit "messageToSign") resp = false) ∧
    has_key (lit "txHash") resp = has_key (lit "messageToSign") resp ∧
    (has_key (lit "txHash") resp = true →
       has_key (lit "result") resp = true) ∧
    (name ∈ transaction_methods → has_key (lit "error") resp = false →
       has_key (lit "result") resp = true ∧
       has_key (lit "txHash") resp = true ∧
       has_key (lit "messageToSign") resp = true) ∧
    (name ∉ transaction_methods →
       has_key (lit "txHash") resp = false ∧
       has_key (lit "messageToSign") resp = false).
Proof.
  intros Hline Hloads Hmethod Hhandler Hrun.
  rewrite (serve_handler line st request name handler) by done.
  rewrite Hrun. eexists. split; [done|].
  assert (outcome_shape outcome) as Hshape
    by (eapply handler_shape; eauto).
  split; [by destruct Hshape|]. split; [by destruct Hshape|].
  split; [by destruct Hshape|]. split; [by destruct Hshape|].
  split.
  - intros Hname.
    assert (signed_shape outcome) as [e|a b c]
      by (eapply handler_signed_shape; eauto); done.
  - intros Hname.
    assert (plain_shape outcome) as [e|v]
      by (eapply handler_plain_shape; eauto); done.
Qed.

Lemma main_cons (line : pystr) (stdin : list pystr) (st st' : state)
    (out : list response) :
  serve line st = (out, None, st') →
  main (line :: stdin) st =
    (out ++ (main stdin st').1.1, (main stdin st').1.2, (main stdin st').2).
Proof.
  intros H. simpl. rewrite H. by destruct (main stdin st') as [[? ?] ?].
Qed.

Lemma HANDLERS_None (name : pystr) :
  name ∉ [ lit "create_client"; lit "sign_create_order";
           lit "sign_cancel_order"; lit "sign_cancel_all";
           lit "create_auth_token" ] →
  HANDLERS !! name = None.
Proof.
  intros H. unfold HANDLERS.
  repeat (rewrite lookup_insert_ne; [|intros <-; apply H; set_solver]).
  apply lookup_empty.
Qed.

(** X9. For a line holding a request (a JSON object) whose method is
    anything that can be looked up in the handler table: a method that is
    not one of the five names is answered with unknown_method and the
    request's id; an exception raised by the handler is answered with
    exception and the request's id; whatever the case, one response is
    printed, it carries the request's id (None when absent), and the loop
    goes on with the next line. *)
Theorem dispatch_errors_and_ids (line : pystr) (st : state)
    (request : gmap pystr value) :
  strip line ≠ [] →
  json_loads (strip line) = Loaded (VDict request) →
  hashable (default VNone (request !! lit "method")) = true →
  let req_id := default VNone (request !! lit "id") in
  let method := default VNone (request !! lit "method") in
  let params := default (VDict ∅) (request !! lit "params") in
  ((∀ name, method = VStr name →
      name ∉ [ lit "create_client"; lit "sign_create_order";
               lit "sign_cancel_order"; lit "sign_cancel_all";
               lit "create_auth_token" ]) →
   serve line st =
     ([ <[ lit "id" := req_id ]>
          {[ lit "error" :=
               VStr (lit "unknown_method:" ++ format method) ]} ],
      None, st))
  ∧ (∀ name handler e st',
       method = VStr name → HANDLERS !! name = Some handler →
       handler params st = (Raise e, st') →
       serve line st =
         ([ <[ lit "id" := req_id ]>
              {[ lit "error" := VStr (lit "exception:" ++ exc_str e) ]} ],
          None, st'))
  ∧ (∃ resp st',
       serve line st = ([resp], None, st') ∧
       resp !! lit "id" = Some req_id ∧
       ∀ stdin, main (line :: stdin) st =
                  (resp :: (main stdin st').1.1, (main stdin st').1.2,
                   (main stdin st').2)).
Proof.
  intros Hline Hloads Hhash req_id method params.
  fold method in Hhash.
  assert (∀ name, method = VStr name →
            request !! lit "method" = Some (VStr name)) as Hname.
  { unfold method. intros name. by destruct (request !! lit "method") as [?|]; intros [= ->]. }
  assert ((∀ name, method = VStr name → HANDLERS !! name = None) →
          serve line st =
            ([ <[ lit "id" := req_id ]>
                 {[ lit "error" :=
                      VStr (lit "unknown_method:" ++ format method) ]} ],
             None, st)) as Hunknown.
  { intros Hnone. unfold serve.
    destruct (strip line) as [|c l]; [done|]. rewrite Hloads.
    fold req_id method params. unfold HANDLERS_get.
    revert Hhash. destruct method eqn:Em; intros Hhash; try done.
    by rewrite (Hnone s eq_refl). }
  split; [|split].
  - intros Hnot. apply Hunknown. intros name Hm.
    by apply HANDLERS_None, Hnot.
  - intros name handler e st' Hm Hh Hrun.
    rewrite (serve_handler line st request name handler); auto.
    fold params req_id. by rewrite Hrun.
  - assert (∃ resp st', serve line st = ([resp], None, st') ∧
                        resp !! lit "id" = Some req_id) as (resp & st' & Hs & Hid).
    { destruct method as [| | | |name| |] eqn:Em;
        try (do 2 eexists; split;
             [apply Hunknown; by intros ? [=] | apply lookup_insert_eq]).
      destruct (HANDLERS !! name) as [handler|] eqn:Eh.
      - rewrite (serve_handler line st request name handler); auto.
        fold params req_id.
        destruct (handler params st) as [[o|e] st1];
          do 2 eexists; (split; [done | apply lookup_insert_eq]).
      - do 2 eexists; split; [|apply lookup_insert_eq].
        apply Hunknown. by intros ? [= <-]. }
    exists resp, st'. split; [done|]. split; [done|].
    intros stdin. by rewrite (main_cons _ _ _ _ _ Hs).
Qed.

(** X1. What the hypothesis on the method leaves out: a method that is a list
    or an object cannot be looked up, and a document that is no object has
    no [get]; either exception escapes the loop. *)
Lemma serve_uncaught (line : pystr) (st : state) (document : value) :
  strip line ≠ [] →
  json_loads (strip line) = Loaded document →
  match document with
  | VDict request =>
    hashable (default VNone (request !! lit "method")) = false →
    serve line st =
      ([], Some (TypeError (default VNone (request !! lit "method"))), st)
  | _ => serve line st = ([], Some (AttributeError document (lit "get")), st)
  end.
Proof.
  intros Hline Hloads. unfold serve.
  destruct (strip line) as [|c l]; [done|]. rewrite Hloads.
  destruct document; try done.
  intros Hh. unfold HANDLERS_get.
  by destruct (default VNone (items !! lit "method")).
Qed.

(** ** The loop and the lines it skips *)

Lemma lstrip_nil (s : pystr) :
  lstrip s = [] ↔ Forall (λ c, is_space c = true) s.
Proof.
  induction s as [|c s IH]; simpl; [done|].
  destruct (is_space c) eqn:E.
  - rewrite IH. split; [by constructor | by inversion 1].
  - split; [done | inversion 1; congruence].
Qed.

Lemma lstrip_spaces (s : pystr) :
  Forall (λ c, is_space c = true) (lstrip s) → lstrip s = [].
Proof.
  induction s as [|c s IH]; simpl; [done|].
  destruct (is_space c) eqn:E; [done|]. inversion 1; congruence.
Qed.

(** [strip] leaves nothing exactly when the line is empty or all
    whitespace. *)
Lemma strip_nil (s : pystr) :
  strip s = [] ↔ Forall (λ c, is_space c = true) s.
Proof.
  unfold strip. rewrite <- lstrip_nil. split.
  - intros H. apply (f_equal reverse) in H.
    rewrite reverse_involutive in H. change (reverse []) with (@nil N) in H.
    apply lstrip_nil, Forall_reverse in H.
    rewrite reverse_involutive in H. by apply lstrip_spaces.
  - intros ->. done.
Qed.

(** X10. A line that is empty or all whitespace prints nothing, changes
    nothing, and the loop goes on with the next line. No line prints more
    than one response, and only a line that is not blank prints one. A line
    that is not blank and lets no exception escape prints exactly one, and
    the loop goes on from the state it leaves; a line that lets an exception
    escape prints nothing, changes nothing and ends the run. *)
Theorem blank_lines_are_skipped (line : pystr) (st : state) :
  (Forall (λ c, is_space c = true) line →
     serve line st = ([], None, st) ∧
     ∀ stdin, main (line :: stdin) st = main stdin st)
  ∧ (∀ out uncaught st',
       serve line st = (out, uncaught, st') →
       (length out ≤ 1)%nat ∧
       (out ≠ [] → ¬ Forall (λ c, is_space c = true) line) ∧
       (¬ Forall (λ c, is_space c = true) line → uncaught = None →
        length out = 1%nat) ∧
       (uncaught = None →
        ∀ stdin, main (line :: stdin) st =
                   (out ++ (main stdin st').1.1, (main stdin st').1.2,
                    (main stdin st').2)) ∧
       (∀ e, uncaught = Some e →
          out = [] ∧ st' = st ∧
          ∀ stdin, main (line :: stdin) st = ([], Uncaught e, st))).
Proof.
  split.
  - intros Hblank. apply strip_nil in Hblank.
    assert (serve line st = ([], None, st)) as Hs
      by (unfold serve; by rewrite Hblank).
    split; [done|]. intros stdin. simpl. rewrite Hs.
    by destruct (main stdin st) as [[? ?] ?].
  - intros out uncaught st' Hserve.
    assert ((length out ≤ 1)%nat ∧
            (out ≠ [] → ¬ Forall (λ c, is_space c = true) line) ∧
            (¬ Forall (λ c, is_space c = true) line → uncaught = None →
             length out = 1%nat) ∧
            (∀ e, uncaught = Some e → out = [] ∧ st' = st))
      as (Hle & Hne & Hone & Hesc).
    { revert Hserve. rewrite <- strip_nil. unfold serve.
      destruct (strip line) as [|c l].
      { intros [= <- <- <-].
        repeat split; simpl; try lia; try done; by intros []. }
      repeat case_match; intros [= <- <- <-];
        repeat split; simpl; try lia; try done; by intros ? [= <-]. }
    split; [done|]. split; [done|]. split; [done|]. split.
    + intros -> stdin. by apply main_cons.
    + intros e ->. destruct (Hesc e eq_refl) as [-> ->].
      split; [done|]. split; [done|]. intros stdin. simpl. by rewrite Hserve.
Qed.

(** C7 (as amended). A line that is not blank and on which [json.loads]
    raises JSONDecodeError prints the one response {id: None, error:
    invalid_json:<detail>}, changes nothing, and the loop goes on with the
    next line. *)
Theorem invalid_json_reported (line : pystr) (st : state) (msg : pystr) :
  strip line ≠ [] →
  json_loads (strip line) = JSONDecodeError msg →
  serve line st =
    ([ <[ lit "id" := VNone ]>
         {[ lit "error" := VStr (lit "invalid_json:" ++ msg) ]} ],
     None, st)
  ∧ ∀ stdin,
      main (line :: stdin) st =
        (<[ lit "id" := VNone ]>
           {[ lit "error" := VStr (lit "invalid_json:" ++ msg) ]}
           :: (main stdin st).1.1,
         (main stdin st).1.2, (main stdin st).2).
Proof.
  intros Hline Hloads.
  assert (serve line st =
    ([ <[ lit "id" := VNone ]>
         {[ lit "error" := VStr (lit "invalid_json:" ++ msg) ]} ],
     None, st)) as Hs.
  { unfold serve. destruct (strip line) as [|c l]; [done|]. by rewrite Hloads. }
  split; [done|]. intros stdin. by rewrite (main_cons _ _ _ _ _ Hs).
Qed.

(** ** The client registry *)

Lemma has_key_error_error (v : value) :
  has_key (lit "error") ({[ lit "error" := v ]} : response) = true.
Proof. reflexivity. Qed.

Lemma has_key_error_result (v : value) :
  has_key (lit "error") ({[ lit "result" := v ]} : response) = false.
Proof. reflexivity. Qed.

Lemma bind_raise {A B} (m : M A) (k : A → M B) (st st' : state) (e : exn) :
  m st = (Raise e, st') → (m ≫= k) st = (Raise e, st').
Proof. intros H. unfold mbind, M_bind. by rewrite H. Qed.

Lemma bind_ok {A B} (m : M A) (k : A → M B) (st st' : state) (a : A) :
  m st = (Ok a, st') → (m ≫= k) st = k a st'.
Proof. intros H. unfold mbind, M_bind. by rewrite H. Qed.

Lemma supplied_has_keys (d : gmap pystr value) :
  has_key (lit "baseUrl") d && has_key (lit "privateKey") d = true
  ↔ supplied d.
Proof.
  unfold has_key, supplied.
  rewrite andb_true_iff, !bool_decide_eq_true. done.
Qed.

Lemma not_supplied_has_keys (d : gmap pystr value) :
  ¬ supplied d →
  has_key (lit "baseUrl") d && has_key (lit "privateKey") d = false.
Proof.
  intros H. apply not_true_is_false. by rewrite supplied_has_keys.
Qed.

Lemma not_coercible (d : gmap pystr value) (key : string) :
  ¬ coercible d key →
  ∃ e, res_bind (getitem (VDict d) (lit key)) py_int = Raise e.
Proof.
  intros H. unfold getitem.
  destruct (d !! lit key) as [v|] eqn:E; simpl; [|by eexists].
  destruct (py_int v) as [z|e] eqn:Ez; [|by eexists].
  destruct H. by exists v, z.
Qed.

(** With the key and the configuration settled, [connect] encodes the two
    texts, calls CreateClient once, and marks the key when no error came
    back. *)
Lemma connect_run (k : Z) (cfg : config) (url key : pystr)
    (burl bkey : pybytes) (st : state) :
  baseUrl cfg = VStr url → Codec.encode url = Ok burl →
  privateKey cfg = VStr key → Codec.encode key = Ok bkey →
  ∃ outcome st',
    connect k (Some cfg) st = (Ok outcome, st') ∧
    _CLIENT_CONFIG st' = _CLIENT_CONFIG st ∧
    calls st' = calls st ++
      [ CallCreateClient burl bkey (c_int (chainId cfg)) (c_int k)
          (c_longlong (accountIndex cfg)) ] ∧
    let result := CreateClient burl bkey (c_int (chainId cfg)) (c_int k)
                    (c_longlong (accountIndex cfg)) (lib st) in
    lib st' = result.2 ∧
    if truthy result.1 then
      (∃ message, decode_replace result.1 = Ok message ∧
                  outcome = {[ lit "error" := VStr message ]}) ∧
      _INITIALISED_KEYS st' = _INITIALISED_KEYS st
    else
      outcome = {[ lit "result" := VStr (lit "ok") ]} ∧
      _INITIALISED_KEYS st' = {[k]} ∪ _INITIALISED_KEYS st.
Proof.
  intros Hu Hbu Hk Hbk. unfold connect.
  rewrite Hu, Hk. simpl encode_utf8. rewrite Hbu, Hbk.
  unfold lift, foreign, mbind, M_bind, mret, M_ret, mark_initialised.
  destruct (CreateClient burl bkey (c_int (chainId cfg)) (c_int k)
              (c_longlong (accountIndex cfg)) (lib st)) as [err l'] eqn:E.
  unfold _maybe_error. simpl.
  destruct (truthy err) eqn:Et.
  - destruct (decode_replace_total err) as [message Hm]. rewrite Hm. simpl.
    rewrite has_key_error_error.
    do 2 eexists. repeat split; simpl; eauto.
  - rewrite has_key_error_result.
    do 2 eexists. repeat split; simpl; eauto.
Qed.

Lemma ensure_client_key (d : gmap pystr value) (v : value) (k : Z)
    (st : state) :
  d !! lit "apiKeyIndex" = Some v → py_int v = Ok k →
  _ensure_client (VDict d) st =
    ((if has_key (lit "baseUrl") d && has_key (lit "privateKey") d then
        base_url ← lift (getitem (VDict d) (lit "baseUrl"));
        private_key ← lift (getitem (VDict d) (lit "privateKey"));
        chain_id ← int_param (VDict d) "chainId";
        account_index ← int_param (VDict d) "accountIndex";
        let config :=
          {| baseUrl := base_url; privateKey := private_key;
             chainId := chain_id; accountIndex := account_index |} in
        _ ← store_config k config;
        mret (Some config)
      else mret (_CLIENT_CONFIG st !! k)) ≫= connect k) st.
Proof.
  intros Hv Hk. unfold _ensure_client.
  unfold mbind, M_bind, int_param, lift, getitem.
  rewrite Hv. cbn [res_bind]. rewrite Hk. reflexivity.
Qed.

(** [_ensure_client] up to the call: the configuration in effect is stored
    under the key and [connect] goes on from there. *)
Lemma ensure_client_run (d : gmap pystr value) (v : value) (k : Z)
    (st : state) (cfg : config) :
  d !! lit "apiKeyIndex" = Some v → py_int v = Ok k →
  in_effect d k st cfg →
  _ensure_client (VDict d) st =
    connect k (Some cfg)
      {| _CLIENT_CONFIG := <[k := cfg]> (_CLIENT_CONFIG st);
         _INITIALISED_KEYS := _INITIALISED_KEYS st;
         lib := lib st;
         calls := calls st |}.
Proof.
  intros Hv Hk Heff. rewrite (ensure_client_key d v k st Hv Hk).
  destruct Heff as [(Hs & Hu & Hp & Hc & Ha)|[Hs Hst]].
  - apply supplied_has_keys in Hs as ->.
    unfold int_param, lift, store_config, mbind, M_bind, mret, M_ret.
    unfold getitem at 1 2. rewrite Hu, Hp, Hc, Ha.
    by destruct cfg.
  - rewrite (not_supplied_has_keys d Hs).
    unfold mbind, M_bind, mret, M_ret. rewrite Hst.
    rewrite insert_id by done. by destruct st.
Qed.

(** C2 (as amended). Whenever a configuration is in effect for the key
    after the optional overwrite, and its endpoint and private key are texts
    that encode as UTF-8, CreateClient is called exactly once, with those
    encodings, the chain id and the key as C ints and the account index as a
    C long long. A non-empty error from it is returned as {error: text} and
    leaves the set of initialised keys alone; anything else (NULL or an
    empty string) adds the key to the set and returns {result: ok}. *)
Theorem ensure_client_connects (d : gmap pystr value) (v : value) (k : Z)
    (st : state) (cfg : config) (url key : pystr) (burl bkey : pybytes) :
  d !! lit "apiKeyIndex" = Some v → py_int v = Ok k →
  in_effect d k st cfg →
  baseUrl cfg = VStr url → Codec.encode url = Ok burl →
  privateKey cfg = VStr key → Codec.encode key = Ok bkey →
  ∃ outcome st',
    _ensure_client (VDict d) st = (Ok outcome, st') ∧
    _CLIENT_CONFIG st' = <[k := cfg]> (_CLIENT_CONFIG st) ∧
    calls st' = calls st ++
      [ CallCreateClient burl bkey (c_int (chainId cfg)) (c_int k)
          (c_longlong (accountIndex cfg)) ] ∧
    let result := CreateClient burl bkey (c_int (chainId cfg)) (c_int k)
                    (c_longlong (accountIndex cfg)) (lib st) in
    lib st' = result.2 ∧
    if truthy result.1 then
      (∃ message, decode_replace result.1 = Ok message ∧
                  outcome = {[ lit "error" := VStr message ]}) ∧
      _INITIALISED_KEYS st' = _INITIALISED_KEYS st
    else
      outcome = {[ lit "result" := VStr (lit "ok") ]} ∧
      _INITIALISED_KEYS st' = {[k]} ∪ _INITIALISED_KEYS st.
Proof.
  intros Hv Hk Heff Hu Hbu Hp Hbp.
  rewrite (ensure_client_run d v k st cfg Hv Hk Heff).
  destruct (connect_run k cfg url key burl bkey
              {| _CLIENT_CONFIG := <[k := cfg]> (_CLIENT_CONFIG st);
                 _INITIALISED_KEYS := _INITIALISED_KEYS st;
                 lib := lib st;
                 calls := calls st |} Hu Hbu Hp Hbp)
    as (outcome & st' & Hrun & Hcfg & Hcalls & Hrest).
  exists outcome, st'. simpl in Hcfg, Hcalls, Hrest. done.
Qed.

(** C1. A privileged method called with an apiKeyIndex for which nothing is
    stored, and with params that do not hold both baseUrl and privateKey,
    returns {error: client_not_initialized}; the state is as before, so no
    call was made into the library: neither CreateClient nor a signing
    operation. *)
Theorem privileged_call_needs_config (name : pystr)
    (d : gmap pystr value) (v : value) (k : Z) (st : state) :
  name ∈ privileged →
  d !! lit "apiKeyIndex" = Some v → py_int v = Ok k →
  _CLIENT_CONFIG st !! k = None →
  ¬ supplied d →
  ∃ handler,
    HANDLERS !! name = Some handler ∧
    handler (VDict d) st =
      (Ok {[ lit "error" := VStr (lit "client_not_initialized") ]}, st) ∧
    calls (handler (VDict d) st).2 = calls st.
Proof.
  intros Hname Hv Hk Hnone Hs.
  assert (_ensure_client (VDict d) st =
          (Ok {[ lit "error" := VStr (lit "client_not_initialized") ]}, st))
    as Hensure.
  { rewrite (ensure_client_key d v k st Hv Hk).
    rewrite (not_supplied_has_keys d Hs).
    unfold mbind, M_bind, mret, M_ret. by rewrite Hnone. }
  assert (∀ rest : response → M response,
    (ensure ← _ensure_client (VDict d);
     if has_key (lit "error") ensure then mret ensure else rest ensure) st
    = (Ok {[ lit "error" := VStr (lit "client_not_initialized") ]}, st))
    as Hguard.
  { intros rest. rewrite (bind_ok _ _ _ _ _ Hensure).
    by rewrite has_key_error_error. }
  unfold privileged in Hname.
  repeat (apply elem_of_cons in Hname as [->|Hname]);
    [| | | | by apply elem_of_nil in Hname].
  - exists handle_sign_create_order. unfold handle_sign_create_order.
    split; [done|]. by rewrite Hguard.
  - exists handle_sign_cancel_order. unfold handle_sign_cancel_order.
    split; [done|]. by rewrite Hguard.
  - exists handle_sign_cancel_all. unfold handle_sign_cancel_all.
    split; [done|]. by rewrite Hguard.
  - exists handle_create_auth_token. unfold handle_create_auth_token.
    split; [done|]. by rewrite Hguard.
Qed.

Lemma ensure_client_rejects (d : gmap pystr value) (st : state) :
  supplied d →
  ¬ coercible d "chainId" ∨ ¬ coercible d "accountIndex" →
  ∃ e, _ensure_client (VDict d) st = (Raise e, st).
Proof.
  intros Hs Hbad.
  destruct (res_bind (getitem (VDict d) (lit "apiKeyIndex")) py_int)
    as [k|e] eqn:Ek.
  - unfold getitem in Ek.
    destruct (d !! lit "apiKeyIndex") as [v|] eqn:Ev; [|done].
    simpl in Ek. rewrite (ensure_client_key d v k st Ev Ek).
    pose proof Hs as [[base_url Hu] [private_key Hp]].
    apply supplied_has_keys in Hs as ->.
    unfold int_param, lift, store_config, mbind, M_bind, mret, M_ret.
    unfold getitem at 1 2. rewrite Hu, Hp.
    destruct (res_bind (getitem (VDict d) (lit "chainId")) py_int)
      as [c|e] eqn:Ec; [|by eexists].
    destruct Hbad as [Hbad|Hbad].
    { apply not_coercible in Hbad as [e He]. congruence. }
    apply not_coercible in Hbad as [e ->]. by eexists.
  - exists e. unfold _ensure_client, int_param, lift, mbind, M_bind.
    by rewrite Ek.
Qed.

(** C9. A request that supplies baseUrl and privateKey but whose chainId or
    accountIndex is missing or cannot be coerced to an integer makes every
    handler raise; the state is exactly as before (no configuration stored
    or changed, no key marked, no call into the library), and the dispatcher
    answers with exception:<description> under the request's id. *)
Theorem credential_overwrite_is_atomic (name : pystr)
    (handler : value → M response) (d : gmap pystr value) (st : state) :
  HANDLERS !! name = Some handler →
  supplied d →
  ¬ coercible d "chainId" ∨ ¬ coercible d "accountIndex" →
  ∃ e,
    handler (VDict d) st = (Raise e, st) ∧
    ∀ line request,
      strip line ≠ [] →
      json_loads (strip line) = Loaded (VDict request) →
      request !! lit "method" = Some (VStr name) →
      request !! lit "params" = Some (VDict d) →
      serve line st =
        ([ <[ lit "id" := default VNone (request !! lit "id") ]>
             {[ lit "error" := VStr (lit "exception:" ++ exc_str e) ]} ],
         None, st).
Proof.
  intros Hh Hs Hbad.
  destruct (ensure_client_rejects d st Hs Hbad) as [e He].
  assert (handler (VDict d) st = (Raise e, st)) as Hrun.
  { destruct (HANDLERS_lookup _ _ Hh)
      as [[_ ->]|[[_ ->]|[[_ ->]|[[_ ->]|[_ ->]]]]];
      [done | by apply bind_raise ..]. }
  exists e. split; [done|].
  intros line request Hline Hloads Hmethod Hparams.
  rewrite (serve_handler line st request name handler) by done.
  rewrite Hparams. simpl. by rewrite Hrun.
Qed.

(** C8 (as amended). With params that hold an integer-coercible
    apiKeyIndex, chainId and accountIndex and, for baseUrl and privateKey,
    texts that can be encoded as UTF-8, and a library whose
    CreateClient reports no error, create_client twice over returns
    {result: ok} both times; after the first call the registry maps the key
    to the configuration built from the params, the second call leaves the
    registry as the first left it, and a registry that had no entry for the
    key has grown by exactly one. *)
Theorem create_client_idempotent (d : gmap pystr value) (v : value) (k : Z)
    (url key : pystr) (burl bkey : pybytes) (c a : Z) (st : state) :
  d !! lit "apiKeyIndex" = Some v → py_int v = Ok k →
  d !! lit "baseUrl" = Some (VStr url) → Codec.encode url = Ok burl →
  d !! lit "privateKey" = Some (VStr key) → Codec.encode key = Ok bkey →
  res_bind (getitem (VDict d) (lit "chainId")) py_int = Ok c →
  res_bind (getitem (VDict d) (lit "accountIndex")) py_int = Ok a →
  (∀ l, truthy (CreateClient burl bkey (c_int c) (c_int k)
                  (c_longlong a) l).1 = false) →
  let cfg := {| baseUrl := VStr url; privateKey := VStr key;
                chainId := c; accountIndex := a |} in
  ∃ st1 st2,
    handle_create_client (VDict d) st
      = (Ok {[ lit "result" := VStr (lit "ok") ]}, st1) ∧
    handle_create_client (VDict d) st1
      = (Ok {[ lit "result" := VStr (lit "ok") ]}, st2) ∧
    _CLIENT_CONFIG st1 = <[k := cfg]> (_CLIENT_CONFIG st) ∧
    _CLIENT_CONFIG st2 = _CLIENT_CONFIG st1 ∧
    _CLIENT_CONFIG st2 !! k = Some cfg ∧
    (_CLIENT_CONFIG st !! k = None →
     size (_CLIENT_CONFIG st2) = S (size (_CLIENT_CONFIG st))).
Proof.
  intros Hv Hk Hu Hbu Hp Hbp Hc Ha Hlib cfg.
  assert (∀ s, in_effect d k s cfg) as Heff.
  { intros s. left. repeat split; eauto. }
  unfold handle_create_client.
  destruct (connect_run k cfg url key burl bkey
              {| _CLIENT_CONFIG := <[k := cfg]> (_CLIENT_CONFIG st);
                 _INITIALISED_KEYS := _INITIALISED_KEYS st;
                 lib := lib st;
                 calls := calls st |} eq_refl Hbu eq_refl Hbp)
    as (o1 & st1 & Hrun1 & Hcfg1 & _ & _ & Hout1).
  rewrite <- (ensure_client_run d v k st cfg Hv Hk (Heff st)) in Hrun1.
  destruct (connect_run k cfg url key burl bkey
              {| _CLIENT_CONFIG := <[k := cfg]> (_CLIENT_CONFIG st1);
                 _INITIALISED_KEYS := _INITIALISED_KEYS st1;
                 lib := lib st1;
                 calls := calls st1 |} eq_refl Hbu eq_refl Hbp)
    as (o2 & st2 & Hrun2 & Hcfg2 & _ & _ & Hout2).
  rewrite <- (ensure_client_run d v k st1 cfg Hv Hk (Heff st1)) in Hrun2.
  simpl in Hcfg1, Hcfg2, Hout1, Hout2. rewrite Hlib in Hout1, Hout2.
  destruct Hout1 as [-> _], Hout2 as [-> _].
  exists st1, st2. split; [done|]. split; [done|]. split; [done|].
  rewrite Hcfg2, Hcfg1, insert_insert_eq.
  split; [done|]. split; [apply lookup_insert_eq|].
  intros Hnone. by apply map_size_insert_None.
Qed.

(** ** What a request can change *)

Lemma wrap_signed_in_range (bits z : Z) :
  0 < bits → - 2 ^ (bits - 1) ≤ z < 2 ^ (bits - 1) → wrap_signed bits z = z.
Proof.
  intros Hbits Hz. unfold wrap_signed.
  assert (2 ^ bits = 2 * 2 ^ (bits - 1)) as Hpow.
  { rewrite <- Z.pow_succ_r by lia. f_equal. lia. }
  destruct (Z.ltb_spec (z mod 2 ^ bits) (2 ^ (bits - 1))) as [Hlt|Hge].
  - destruct (Z.lt_ge_cases z 0) as [Hneg|Hpos].
    + rewrite <- (Z.mod_add z 1 (2 ^ bits)) in Hlt by lia.
      rewrite Z.mod_small in Hlt by lia. lia.
    + apply Z.mod_small. lia.
  - destruct (Z.lt_ge_cases z 0) as [Hneg|Hpos].
    + rewrite <- (Z.mod_add z 1 (2 ^ bits)) by lia.
      rewrite Z.mod_small by lia. lia.
    + rewrite Z.mod_small in Hge by lia. lia.
Qed.

(** Values that fit the C type pass unchanged. *)
Lemma c_int_in_range (z : Z) : - 2 ^ 31 ≤ z < 2 ^ 31 → c_int z = z.
Proof. intros H. by apply wrap_signed_in_range. Qed.

Lemma c_longlong_in_range (z : Z) : - 2 ^ 63 ≤ z < 2 ^ 63 → c_longlong z = z.
Proof. intros H. by apply wrap_signed_in_range. Qed.

Lemma touches_only_refl (k : Z) (st : state) : touches_only k st st.
Proof.
  unfold touches_only. split; [done|]. split; [done|].
  split; [done|]. split; [apply union_subseteq_r|].
  exists []. by rewrite app_nil_r.
Qed.

Lemma touches_only_trans (k : Z) (st1 st2 st3 : state) :
  touches_only k st1 st2 → touches_only k st2 st3 → touches_only k st1 st3.
Proof.
  intros (Hc1 & Hs1 & Hi1 & Hj1 & new1 & Hl1) (Hc2 & Hs2 & Hi2 & Hj2 & new2 & Hl2).
  repeat split.
  - intros k' Hk'. rewrite Hc2, Hc1; auto.
  - auto.
  - by etrans.
  - intros x Hx. apply Hj2, elem_of_union in Hx as [Hx|Hx].
    + apply elem_of_union. by left.
    + by apply Hj1.
  - exists (new1 ++ new2). by rewrite Hl2, Hl1, app_assoc.
Qed.

Lemma confined_ret {A} (k : Z) (a : A) : confined k (mret a).
Proof. intros st r st' [= _ <-]. apply touches_only_refl. Qed.

Lemma confined_lift {A} (k : Z) (r : res A) : confined k (lift r).
Proof. intros st r' st' [= _ <-]. apply touches_only_refl. Qed.

Lemma confined_bind {A B} (k : Z) (m : M A) (f : A → M B) :
  confined k m → (∀ a, confined k (f a)) → confined k (m ≫= f).
Proof.
  intros Hm Hf st r st'. unfold mbind, M_bind.
  destruct (m st) as [[a|e] st1] eqn:E.
  - intros Hrun. eapply touches_only_trans; [by eapply Hm | by eapply Hf].
  - intros [= _ <-]. by eapply Hm.
Qed.

Lemma confined_foreign {A} (k : Z) (c : call) (f : L → A * L) :
  confined k (foreign c f).
Proof.
  intros st r st'. unfold foreign. destruct (f (lib st)) as [a l].
  intros [= _ <-]. unfold touches_only. simpl.
  split; [done|]. split; [done|]. split; [done|].
  split; [apply union_subseteq_r|]. by eexists.
Qed.

Lemma confined_store_config (k : Z) (c : config) :
  confined k (store_config k c).
Proof.
  intros st r st' [= _ <-]. unfold touches_only. simpl.
  split; [intros k' Hk'; by rewrite lookup_insert_ne|].
  split; [intros _; rewrite lookup_insert_eq; by eexists|].
  split; [done|]. split; [apply union_subseteq_r|].
  exists []. by rewrite app_nil_r.
Qed.

Lemma confined_mark_initialised (k : Z) : confined k (mark_initialised k).
Proof.
  intros st r st' [= _ <-]. unfold touches_only. simpl.
  split; [done|]. split; [done|].
  split; [apply union_subseteq_r|]. split; [done|].
  exists []. by rewrite app_nil_r.
Qed.

Lemma confined_connect (k : Z) (c : option config) : confined k (connect k c).
Proof.
  unfold connect. destruct c as [c|]; [|apply confined_ret].
  apply confined_bind; [apply confined_lift|intros url].
  apply confined_bind; [apply confined_lift|intros key].
  apply confined_bind; [apply confined_foreign|intros err].
  apply confined_bind; [apply confined_lift|intros outcome].
  destruct (has_key _ outcome); [apply confined_ret|].
  apply confined_bind; [apply confined_mark_initialised|intros _].
  apply confined_ret.
Qed.

Create HintDb confined.

#[local] Hint Resolve confined_ret confined_lift confined_foreign
  confined_store_config confined_mark_initialised confined_connect
  touches_only_refl : confined.

Ltac confine :=
  repeat first
    [ apply confined_bind; [unfold int_param; auto with confined | intros ?]
    | match goal with |- confined _ (if ?b then _ else _) => destruct b end
    | solve [unfold int_param; auto with confined] ].

Lemma ensure_body_confined (k : Z) (d : gmap pystr value)
    (stored : option config) :
  confined k
    ((if has_key (lit "baseUrl") d && has_key (lit "privateKey") d then
        base_url ← lift (getitem (VDict d) (lit "baseUrl"));
        private_key ← lift (getitem (VDict d) (lit "privateKey"));
        chain_id ← int_param (VDict d) "chainId";
        account_index ← int_param (VDict d) "accountIndex";
        let config :=
          {| baseUrl := base_url; privateKey := private_key;
             chainId := chain_id; accountIndex := account_index |} in
        _ ← store_config k config;
        mret (Some config)
      else mret stored) ≫= connect k).
Proof.
  apply confined_bind; [|intros c; apply confined_connect].
  confine.
Qed.

(** A run of [_ensure_client] either raises with the state as it was (no
    usable apiKeyIndex) or stays within what concerns the key it was called
    for. *)
Lemma ensure_client_confined (params : value) (st st' : state)
    (r : res response) :
  _ensure_client params st = (r, st') →
  ((∃ e, r = Raise e) ∧ st' = st) ∨
  ∃ v k, getitem params (lit "apiKeyIndex") = Ok v ∧ py_int v = Ok k ∧
         touches_only k st st'.
Proof.
  destruct params as [| | | | | |d];
    try (intros [= <- <-]; left; split; [by eexists | done]).
  destruct (d !! lit "apiKeyIndex") as [v|] eqn:Ev.
  2:{ unfold _ensure_client, int_param, lift, mbind, M_bind, getitem.
      rewrite Ev. intros [= <- <-]. left. split; [by eexists | done]. }
  destruct (py_int v) as [k|e] eqn:Ek.
  2:{ unfold _ensure_client, int_param, lift, mbind, M_bind, getitem.
      rewrite Ev. simpl. rewrite Ek. intros [= <- <-].
      left. split; [by eexists | done]. }
  rewrite (ensure_client_key d v k st Ev Ek). intros Hrun.
  right. exists v, k. unfold getitem. rewrite Ev. split; [done|]. split; [done|].
  by eapply ensure_body_confined.
Qed.

Lemma guarded_confined (params : value) (rest : M response)
    (st st' : state) (r : res response) :
  (∀ k, confined k rest) →
  (ensure ← _ensure_client params;
   if has_key (lit "error") ensure then mret ensure else rest) st = (r, st') →
  ((∃ e, r = Raise e) ∧ st' = st) ∨
  ∃ v k, getitem params (lit "apiKeyIndex") = Ok v ∧ py_int v = Ok k ∧
         touches_only k st st'.
Proof.
  intros Hrest. unfold mbind, M_bind.
  destruct (_ensure_client params st) as [[o|e] st1] eqn:E.
  - destruct (ensure_client_confined _ _ _ _ E)
      as [[[e He] _]|(v & k & Hv & Hk & Ht)]; [done|].
    intros Hrun. right. exists v, k. split; [done|]. split; [done|].
    eapply touches_only_trans; [exact Ht|].
    destruct (has_key _ o).
    + injection Hrun as _ <-. apply touches_only_refl.
    + by eapply Hrest.
  - intros [= <- <-]. by apply ensure_client_confined in E.
Qed.

(** X2. Whatever a request does, it does for its own key: a handler either
    raises with the state untouched, or it leaves every other key's
    configuration as it was, removes no configuration and no initialised key,
    adds at most its own key to the initialised ones, and only appends to the
    log of calls. *)
Theorem request_touches_only_its_key (name : pystr)
    (handler : value → M response) (params : value) (st st' : state)
    (r : res response) :
  HANDLERS !! name = Some handler →
  handler params st = (r, st') →
  ((∃ e, r = Raise e) ∧ st' = st) ∨
  ∃ v k, getitem params (lit "apiKeyIndex") = Ok v ∧ py_int v = Ok k ∧
         touches_only k st st'.
Proof.
  intros Hh.
  destruct (HANDLERS_lookup _ _ Hh)
    as [[_ ->]|[[_ ->]|[[_ ->]|[[_ ->]|[_ ->]]]]].
  - apply ensure_client_confined.
  - apply guarded_confined. intros k. confine.
  - apply guarded_confined. intros k. confine.
  - apply guarded_confined. intros k. confine.
  - apply guarded_confined. intros k. confine.
Qed.

(** ** The calls one request makes *)

Lemma encode_utf8_Ok (v : value) (bs : pybytes) :
  encode_utf8 v = Ok bs → ∃ s, v = VStr s ∧ Codec.encode s = Ok bs.
Proof. destruct v; try done. intros H. by eexists. Qed.

Lemma connect_cases (k : Z) (c : option config) (st st1 : state)
    (r : res response) :
  connect k c st = (r, st1) →
  _CLIENT_CONFIG st1 = _CLIENT_CONFIG st ∧
  ((calls st1 = calls st ∧ _INITIALISED_KEYS st1 = _INITIALISED_KEYS st ∧
    ∀ o, r = Ok o → has_key (lit "error") o = true)
   ∨ ∃ cfg burl bkey,
       c = Some cfg ∧
       calls st1 = calls st ++
         [ CallCreateClient burl bkey (c_int (chainId cfg)) (c_int k)
             (c_longlong (accountIndex cfg)) ] ∧
       ((∃ e, r = Ok {[ lit "error" := VStr e ]} ∧
              _INITIALISED_KEYS st1 = _INITIALISED_KEYS st)
        ∨ (r = Ok {[ lit "result" := VStr (lit "ok") ]} ∧
           _INITIALISED_KEYS st1 = {[k]} ∪ _INITIALISED_KEYS st))).
Proof.
  destruct c as [cfg|].
  2:{ intros [= <- <-]. split; [done|]. left. split; [done|]. split; [done|].
      by intros o [= <-]. }
  destruct (encode_utf8 (baseUrl cfg)) as [burl|e] eqn:Eu.
  2:{ unfold connect, lift, mbind, M_bind. rewrite Eu. intros [= <- <-].
      split; [done|]. by left. }
  destruct (encode_utf8 (privateKey cfg)) as [bkey|e] eqn:Ep.
  2:{ unfold connect, lift, mbind, M_bind. rewrite Eu, Ep. intros [= <- <-].
      split; [done|]. by left. }
  apply encode_utf8_Ok in Eu as (url & Hu & Hbu).
  apply encode_utf8_Ok in Ep as (key & Hp & Hbp).
  destruct (connect_run k cfg url key burl bkey st Hu Hbu Hp Hbp)
    as (o & st' & Hrun & Hcfg & Hcalls & _ & Hout).
  rewrite Hrun. intros [= <- <-]. split; [done|].
  right. exists cfg, burl, bkey. split; [done|]. split; [done|].
  destruct (truthy _).
  - destruct Hout as [(e & _ & ->) Hi]. left. eauto.
  - destruct Hout as [-> Hi]. by right.
Qed.

(** The cases of [_ensure_client]: no call at all (and then no success), or
    exactly one CreateClient call for the key the request names. *)
Lemma ensure_client_cases (params : value) (st st1 : state)
    (r : res response) :
  _ensure_client params st = (r, st1) →
  (calls st1 = calls st ∧ _INITIALISED_KEYS st1 = _INITIALISED_KEYS st ∧
   ∀ o, r = Ok o → has_key (lit "error") o = true)
  ∨ ∃ k cfg burl bkey,
      param_int params "apiKeyIndex" = Ok k ∧
      _CLIENT_CONFIG st1 !! k = Some cfg ∧
      calls st1 = calls st ++
        [ CallCreateClient burl bkey (c_int (chainId cfg)) (c_int k)
            (c_longlong (accountIndex cfg)) ] ∧
      ((∃ e, r = Ok {[ lit "error" := VStr e ]} ∧
             _INITIALISED_KEYS st1 = _INITIALISED_KEYS st)
       ∨ (r = Ok {[ lit "result" := VStr (lit "ok") ]} ∧
          _INITIALISED_KEYS st1 = {[k]} ∪ _INITIALISED_KEYS st)).
Proof.
  destruct params as [| | | | | |d];
    try (intros [= <- <-]; by left).
  destruct (d !! lit "apiKeyIndex") as [v|] eqn:Ev.
  2:{ unfold _ensure_client, int_param, lift, mbind, M_bind, getitem.
      rewrite Ev. intros [= <- <-]. by left. }
  destruct (py_int v) as [k|e] eqn:Ek.
  2:{ unfold _ensure_client, int_param, lift, mbind, M_bind, getitem.
      rewrite Ev. simpl. rewrite Ek. intros [= <- <-]. by left. }
  assert (param_int (VDict d) "apiKeyIndex" = Ok k) as Hkey.
  { unfold param_int, getitem. by rewrite Ev. }
  rewrite (ensure_client_key d v k st Ev Ek).
  unfold mbind at 1, M_bind at 1.
  match goal with
  | |- (match ?body with _ => _ end = _) → _ =>
    destruct body as [[c|e] st0] eqn:Ebody
  end.
  2:{ intros [= <- <-]. revert Ebody.
      destruct (has_key (lit "baseUrl") d && has_key (lit "privateKey") d);
        [|by intros [=]].
      unfold int_param, lift, store_config, mbind, M_bind, mret, M_ret.
      repeat case_match; intros; simplify_eq; by left. }
  assert (calls st0 = calls st ∧
          _INITIALISED_KEYS st0 = _INITIALISED_KEYS st ∧
          ∀ cfg, c = Some cfg → _CLIENT_CONFIG st0 !! k = Some cfg)
    as (Hc0 & Hi0 & Hcfg0).
  { revert Ebody.
    destruct (has_key (lit "baseUrl") d && has_key (lit "privateKey") d).
    - unfold int_param, lift, store_config, mbind, M_bind, mret, M_ret.
      repeat case_match; intros; simplify_eq. simpl.
      split; [done|]. split; [done|].
      intros cfg [= <-]. apply lookup_insert_eq.
    - intros [= <- <-]. split; [done|]. split; [done|]. by intros cfg ->. }
  intros Hconn. apply connect_cases in Hconn as [Hcfg1 Hcases].
  destruct Hcases as [(Hc1 & Hi1 & Herr)|(cfg & burl & bkey & -> & Hc1 & Hout)].
  - left. split; [congruence|]. split; [congruence|]. done.
  - right. exists k, cfg, burl, bkey. split; [done|].
    split; [rewrite Hcfg1; by apply Hcfg0|].
    split; [by rewrite Hc1, Hc0|].
    by rewrite <- Hi0.
Qed.

Lemma signs_for_lift {A} (k : Z) (r : res A) : signs_for k (lift r).
Proof. intros st r' st' [= _ <-]. split; [done|]. split; [done|]. by left. Qed.

Lemma signs_for_bind_param {A} (k : Z) (params : value) (key : string)
    (f : Z → M A) :
  (∀ a, signs_for k (f a)) → signs_for k (int_param params key ≫= f).
Proof.
  intros Hf st r st'. unfold int_param, lift, mbind, M_bind.
  destruct (res_bind _ _) as [a|e]; [apply Hf|].
  intros [= _ <-]. split; [done|]. split; [done|]. by left.
Qed.

Lemma signs_for_bind_known {A} (k a : Z) (params : value) (key : string)
    (f : Z → M A) :
  param_int params key = Ok a → signs_for k (f a) →
  signs_for k (int_param params key ≫= f).
Proof.
  intros Ha Hf st r st'. unfold int_param, lift, mbind, M_bind.
  unfold param_int in Ha. rewrite Ha. apply Hf.
Qed.

Lemma signs_for_foreign {A} (k : Z) (c : call) (f : L → A * L)
    (g : A → res response) :
  is_signing c = true → api_key_of c = c_int k →
  signs_for k (foreign c f ≫= λ result, lift (g result)).
Proof.
  intros Hs Hk st r st'. unfold foreign, lift, mbind, M_bind.
  destruct (f (lib st)) as [a l]. intros [= _ <-]. simpl.
  split; [done|]. split; [done|]. right. by exists c.
Qed.

Ltac signs :=
  repeat first
    [ apply signs_for_bind_param; intros ?
    | by apply signs_for_foreign ].

(** A handler of the form "run [_ensure_client], stop on error, otherwise
    go on with [rest]", where [rest] makes at most one privileged call for
    the request's key. *)
Lemma guarded_effect (params : value) (rest : M response) (st st' : state)
    (r : res response) :
  (∀ k, confined k rest) →
  (∀ k, param_int params "apiKeyIndex" = Ok k → signs_for k rest) →
  (ensure ← _ensure_client params;
   if has_key (lit "error") ensure then mret ensure else rest) st = (r, st') →
  request_effect st st'.
Proof.
  intros Hconf Hsigns Hrun.
  assert ((∀ k, is_Some (_CLIENT_CONFIG st !! k) →
                is_Some (_CLIENT_CONFIG st' !! k)) ∧
          _INITIALISED_KEYS st ⊆ _INITIALISED_KEYS st') as [Hdom Hinit].
  { destruct (guarded_confined params rest st st' r Hconf Hrun)
      as [[_ ->]|(v & k & _ & _ & Hc & Hs & Hi & _)]; [done|].
    split; [|done]. intros k' Hk'.
    destruct (decide (k' = k)) as [->|Hne]; [auto | by rewrite Hc]. }
  split; [done|]. split; [done|].
  revert Hrun. unfold mbind, M_bind.
  destruct (_ensure_client params st) as [[o|e] st1] eqn:E.
  2:{ intros [= <- <-].
      destruct (ensure_client_cases _ _ _ _ E)
        as [(Hc & Hi & _)|(k & cfg & burl & bkey & _ & _ & _ & [(? & ? & _)|[? _]])];
        [by left | done | done]. }
  destruct (ensure_client_cases _ _ _ _ E)
    as [(Hc & Hi & Herr)|(k & cfg & burl & bkey & Hk & Hcfg & Hc & Hout)].
  - rewrite (Herr o eq_refl). intros [= <- <-]. by left.
  - destruct Hout as [(e & [= ->] & Hi)|[[= ->] Hi]].
    + rewrite has_key_error_error. intros [= <- <-].
      right. exists k, (CallCreateClient burl bkey (c_int (chainId cfg))
                          (c_int k) (c_longlong (accountIndex cfg))).
      split; [done|]. split; [done|]. split; [by rewrite Hcfg|].
      split; [rewrite Hi; apply union_subseteq_r|]. by left.
    + rewrite has_key_error_result. intros Hrest.
      destruct (Hsigns k Hk _ _ _ Hrest) as (Hcfg' & Hi' & Hcalls).
      right. exists k, (CallCreateClient burl bkey (c_int (chainId cfg))
                          (c_int k) (c_longlong (accountIndex cfg))).
      split; [done|]. split; [done|].
      split; [by rewrite Hcfg', Hcfg|].
      split; [by rewrite Hi', Hi|].
      destruct Hcalls as [Hcalls|(s & Hs & Hks & Hcalls)].
      * left. by rewrite Hcalls.
      * right. exists s. split; [done|]. split; [done|].
        by rewrite Hcalls, Hc, <- app_assoc.
Qed.

(** Every handler stays within [request_effect]. *)
Lemma handler_effect (name : pystr) (handler : value → M response)
    (params : value) (st st' : state) (r : res response) :
  HANDLERS !! name = Some handler →
  handler params st = (r, st') →
  request_effect st st'.
Proof.
  intros Hh.
  destruct (HANDLERS_lookup _ _ Hh)
    as [[_ ->]|[[_ ->]|[[_ ->]|[[_ ->]|[_ ->]]]]].
  - unfold handle_create_client. intros Hrun.
    assert ((∀ k, is_Some (_CLIENT_CONFIG st !! k) →
                  is_Some (_CLIENT_CONFIG st' !! k)) ∧
            _INITIALISED_KEYS st ⊆ _INITIALISED_KEYS st') as [Hdom Hinit].
    { destruct (ensure_client_confined params st st' r Hrun)
        as [[_ ->]|(v & k & _ & _ & Hc & Hs & Hi & _)]; [done|].
      split; [|done]. intros k' Hk'.
      destruct (decide (k' = k)) as [->|Hne]; [auto | by rewrite Hc]. }
    split; [done|]. split; [done|].
    destruct (ensure_client_cases _ _ _ _ Hrun)
      as [(Hc & Hi & _)|(k & cfg & burl & bkey & Hk & Hcfg & Hc & Hout)];
      [by left|].
    right. exists k, (CallCreateClient burl bkey (c_int (chainId cfg))
                        (c_int k) (c_longlong (accountIndex cfg))).
    split; [done|]. split; [done|]. split; [by rewrite Hcfg|].
    split; [|by left].
    destruct Hout as [(e & _ & ->)|[_ ->]]; [apply union_subseteq_r | done].
  - apply guarded_effect; [intros k; confine|].
    intros k Hk. eapply signs_for_bind_known; [exact Hk|]. signs.
  - apply guarded_effect; [intros k; confine|].
    intros k Hk. eapply signs_for_bind_known; [exact Hk|]. signs.
  - apply guarded_effect; [intros k; confine|].
    intros k Hk. eapply signs_for_bind_known; [exact Hk|]. signs.
  - apply guarded_effect; [intros k; confine|].
    intros k Hk. eapply signs_for_bind_known; [exact Hk|]. signs.
Qed.

(** ** Whole runs *)

Lemma request_effect_refl (st : state) : request_effect st st.
Proof. split; [done|]. split; [done|]. by left. Qed.

Lemma serve_effect (line : pystr) (st st' : state) (out : list response)
    (uncaught : option exn) :
  serve line st = (out, uncaught, st') → request_effect st st'.
Proof.
  unfold serve. destruct (strip line) as [|c l].
  { intros [= _ _ <-]. apply request_effect_refl. }
  destruct (json_loads (c :: l)) as [document|msg|e].
  2,3: by (intros [= _ _ <-]; apply request_effect_refl).
  destruct document as [| | | | | |request];
    try (intros [= _ _ <-]; apply request_effect_refl).
  unfold HANDLERS_get.
  destruct (default VNone (request !! lit "method")) as [| | | |name| |];
    try (intros [= _ _ <-]; apply request_effect_refl).
  destruct (HANDLERS !! name) as [handler|] eqn:Eh.
  2:{ intros [= _ _ <-]. apply request_effect_refl. }
  destruct (handler _ st) as [[o|e] st1] eqn:E; intros [= _ _ <-];
    eapply handler_effect; eauto.
Qed.

(** X3. Serving one line makes no call into the library, or one
    CreateClient call, or a CreateClient call directly followed by one
    privileged call with the same apiKeyIndex argument; it removes no
    configuration and no initialised key, and a key becomes initialised only
    together with a CreateClient call for it and with a configuration stored
    for it. *)
Theorem request_calls (line : pystr) (st st' : state) (out : list response)
    (uncaught : option exn) :
  serve line st = (out, uncaught, st') →
  (∀ k, is_Some (_CLIENT_CONFIG st !! k) → is_Some (_CLIENT_CONFIG st' !! k))
  ∧ _INITIALISED_KEYS st ⊆ _INITIALISED_KEYS st'
  ∧ ∃ new,
      calls st' = calls st ++ new ∧
      ((new = [] ∧ _INITIALISED_KEYS st' = _INITIALISED_KEYS st)
       ∨ ∃ k c,
           is_signing c = false ∧ api_key_of c = c_int k ∧
           is_Some (_CLIENT_CONFIG st' !! k) ∧
           _INITIALISED_KEYS st' ⊆ {[k]} ∪ _INITIALISED_KEYS st ∧
           (new = [c]
            ∨ ∃ s, new = [c; s] ∧ is_signing s = true ∧
                   api_key_of s = c_int k)).
Proof.
  intros Hserve.
  destruct (serve_effect _ _ _ _ _ Hserve) as (Hdom & Hinit & Hcases).
  split; [done|]. split; [done|].
  destruct Hcases as [[Hc Hi]|(k & c & Hs & Hk & Hcfg & Hi & Hcalls)].
  - exists []. rewrite app_nil_r. split; [done|]. by left.
  - destruct Hcalls as [Hc|(s & Hss & Hks & Hc)].
    + exists [c]. split; [done|]. right. exists k, c. eauto 10.
    + exists [c; s]. split; [done|]. right. exists k, c.
      repeat (split; [done|]). right. by exists s.
Qed.

Lemma guarded_nil : guarded [].
Proof. intros before s after H. by destruct before. Qed.

Lemma guarded_client (log : list call) (c : call) :
  guarded log → is_signing c = false → guarded (log ++ [c]).
Proof.
  intros Hlog Hc before s after Heq Hs.
  destruct after as [|x after _] using rev_ind.
  - apply app_inj_tail in Heq as [_ ->]. congruence.
  - rewrite app_comm_cons, app_assoc in Heq.
    apply app_inj_tail in Heq as [-> _]. by eapply Hlog.
Qed.

Lemma guarded_signed (log : list call) (c s : call) :
  guarded log → is_signing c = false → api_key_of c = api_key_of s →
  guarded (log ++ [c; s]).
Proof.
  intros Hlog Hc Hk before s' after Heq Hs.
  change [c; s] with ([c] ++ [s]) in Heq. rewrite app_assoc in Heq.
  destruct after as [|x after _] using rev_ind.
  - apply app_inj_tail in Heq as [<- <-]. by exists log, c.
  - rewrite app_comm_cons, app_assoc in Heq.
    apply app_inj_tail in Heq as [Heq _].
    by eapply (guarded_client log c Hlog Hc).
Qed.

Lemma request_effect_consistent (st st' : state) :
  consistent st → request_effect st st' → consistent st'.
Proof.
  intros [Hkeys Hlog] (Hdom & Hinit & Hcases).
  destruct Hcases as [[Hc Hi]|(k & c & Hs & Hk & Hcfg & Hi & Hcalls)].
  - split; [|by rewrite Hc].
    intros k Hin. rewrite Hi in Hin. rewrite Hc.
    destruct (Hkeys k Hin) as [Hcfg Hcall]. auto.
  - assert (∃ new, calls st' = calls st ++ new ∧ c ∈ new ∧
                   guarded (calls st ++ new)) as (new & Hnew & Hin & Hg).
    { destruct Hcalls as [Hc|(s & Hss & Hks & Hc)].
      - exists [c]. split; [done|]. split; [apply list_elem_of_singleton; done|].
        by apply guarded_client.
      - exists [c; s]. split; [done|]. split; [apply list_elem_of_here|].
        apply guarded_signed; [done..|congruence]. }
    split; [|by rewrite Hnew].
    intros k' Hk'. apply Hi, elem_of_union in Hk' as [Hk'|Hk'].
    + apply elem_of_singleton in Hk' as ->. split; [done|].
      exists c. rewrite Hnew, elem_of_app. auto.
    + destruct (Hkeys k' Hk') as [Hcfg' (c' & Hc' & Hs' & Hk'')].
      split; [auto|]. exists c'. rewrite Hnew, elem_of_app. auto.
Qed.

Lemma initial_consistent (l : L) : consistent (initial l).
Proof.
  split; [|apply guarded_nil]. intros k Hk. simpl in Hk.
  by apply elem_of_empty in Hk.
Qed.

Lemma main_consistent (stdin : list pystr) :
  ∀ st out how st',
    consistent st → main stdin st = (out, how, st') → consistent st'.
Proof.
  induction stdin as [|line stdin IH]; intros st out how st' Hst.
  - by intros [= _ _ <-].
  - simpl. destruct (serve line st) as [[out1 [e|]] st1] eqn:E.
    + intros [= _ _ <-].
      eapply request_effect_consistent; [done | by eapply serve_effect].
    + destruct (main stdin st1) as [[out2 how2] st2] eqn:E2.
      intros [= _ _ <-]. eapply IH; [|done].
      eapply request_effect_consistent; [done | by eapply serve_effect].
Qed.

(** X4. Whatever the input, a run of the loop that starts with the
    module's initial state ends in a state where every initialised key has a
    stored configuration and a CreateClient call in the log, and where every
    privileged call in the log directly follows a CreateClient call with the
    same apiKeyIndex argument. *)
Theorem run_is_guarded (l : L) (stdin : list pystr) (out : list response)
    (how : exit) (st : state) :
  main stdin (initial l) = (out, how, st) →
  (∀ k, k ∈ _INITIALISED_KEYS st →
        is_Some (_CLIENT_CONFIG st !! k) ∧
        ∃ c, c ∈ calls st ∧ is_signing c = false ∧ api_key_of c = c_int k)
  ∧ ∀ before s after,
      calls st = before ++ s :: after → is_signing s = true →
      ∃ before' c,
        before = before' ++ [c] ∧ is_signing c = false ∧
        api_key_of c = api_key_of s.
Proof.
  intros Hrun.
  apply (main_consistent stdin (initial l) out how st (initial_consistent l) Hrun).
Qed.

(** X5. Reading a sequence of lines followed by another is reading the
    first, and then, unless an exception has escaped, the second from the
    state the first has left; after an escaped exception nothing more is
    read. *)
Theorem main_app (xs ys : list pystr) (st : state) :
  main (xs ++ ys) st =
    match main xs st with
    | (out, EndOfInput, st1) =>
      (out ++ (main ys st1).1.1, (main ys st1).1.2, (main ys st1).2)
    | (out, Uncaught e, st1) => (out, Uncaught e, st1)
    end.
Proof.
  revert st. induction xs as [|line xs IH]; intros st.
  - simpl. by destruct (main ys st) as [[? ?] ?].
  - simpl. destruct (serve line st) as [[out1 [e|]] st1]; [done|].
    rewrite IH. destruct (main xs st1) as [[out2 [|e]] st2]; [|done].
    simpl. by rewrite app_assoc.
Qed.

Lemma serve_response (line : pystr) (st st' : state) (out : list response)
    (uncaught : option exn) (resp : response) :
  serve line st = (out, uncaught, st') → resp ∈ out →
  is_Some (resp !! lit "id") ∧
  has_key (lit "error") resp = negb (has_key (lit "result") resp).
Proof.
  unfold serve. destruct (strip line) as [|c l].
  { intros [= <- _ _] Hin. by apply elem_of_nil in Hin. }
  destruct (json_loads (c :: l)) as [document|msg|e].
  3:{ intros [= <- _ _] Hin. by apply elem_of_nil in Hin. }
  2:{ intros [= <- _ _] Hin. apply list_elem_of_singleton in Hin as ->.
      split; [by eexists | done]. }
  destruct document as [| | | | | |request];
    try (intros [= <- _ _] Hin; by apply elem_of_nil in Hin).
  destruct (HANDLERS_get _) as [[handler|]|e] eqn:Eg.
  - unfold HANDLERS_get in Eg.
    destruct (default VNone (request !! lit "method")) as [| | | |name| |];
      try (by repeat case_match).
    injection Eg as Eh.
    destruct (handler _ st) as [[o|e] st1] eqn:E; intros [= <- _ _] Hin;
      apply list_elem_of_singleton in Hin as ->.
    + assert (outcome_shape o) as Ho by (eapply handler_shape; eauto).
      rewrite setdefault_id by done.
      split; [eexists; apply lookup_insert_eq|].
      by destruct Ho.
    + split; [by eexists | done].
  - intros [= <- _ _] Hin. apply list_elem_of_singleton in Hin as ->.
    split; [by eexists | done].
  - intros [= <- _ _] Hin. by apply elem_of_nil in Hin.
Qed.

(** X6. Every response a run prints has an id entry, and has an error
    entry or a result entry but not both. *)
Theorem every_response_is_well_formed (stdin : list pystr) (st st' : state)
    (out : list response) (how : exit) (resp : response) :
  main stdin st = (out, how, st') → resp ∈ out →
  is_Some (resp !! lit "id") ∧
  has_key (lit "error") resp = negb (has_key (lit "result") resp).
Proof.
  revert st out. induction stdin as [|line stdin IH]; intros st out.
  - intros [= <- _ _] Hin. by apply elem_of_nil in Hin.
  - simpl. destruct (serve line st) as [[out1 [e|]] st1] eqn:E.
    + intros [= <- _ _] Hin. by eapply serve_response.
    + destruct (main stdin st1) as [[out2 how2] st2] eqn:E2.
      intros [= <- <- <-] Hin. apply elem_of_app in Hin as [Hin|Hin].
      * by eapply serve_response.
      * by eapply IH.
Qed.

Lemma serve_servable (line : pystr) (st : state) :
  servable line →
  ∃ out st', serve line st = (out, None, st') ∧
             length out = length (non_blank [line]).
Proof.
  intros Hline. unfold non_blank. rewrite filter_cons, filter_nil.
  unfold serve.
  destruct Hline as [Hblank|[[msg Hmsg]|(request & Hreq & Hhash)]].
  - rewrite Hblank. rewrite decide_False by (by intros []).
    by do 2 eexists.
  - destruct (strip line) as [|c l] eqn:El.
    { rewrite decide_False by (by intros []). by do 2 eexists. }
    rewrite decide_True by done. rewrite Hmsg. by do 2 eexists.
  - destruct (strip line) as [|c l] eqn:El.
    { rewrite decide_False by (by intros []). by do 2 eexists. }
    rewrite decide_True by done. rewrite Hreq.
    unfold HANDLERS_get.
    destruct (default VNone (request !! lit "method")) as [| | | |name| |];
      try done; try (by do 2 eexists).
    destruct (HANDLERS !! name) as [handler|]; [|by do 2 eexists].
    destruct (handler _ st) as [[o|e] st1]; by do 2 eexists.
Qed.

(** X7. When every line is blank, or makes [json.loads] raise
    JSONDecodeError, or makes it return a dict whose method is a string, a
    number, a boolean, null or absent, the loop reads the input to its end
    and prints exactly one response for each line that is not blank. *)
Theorem main_serves_every_line (stdin : list pystr) (st : state) :
  Forall servable stdin →
  ∃ out st',
    main stdin st = (out, EndOfInput, st') ∧
    length out = length (non_blank stdin).
Proof.
  revert st. induction stdin as [|line stdin IH]; intros st Hall.
  - by do 2 eexists.
  - apply Forall_cons in Hall as [Hline Hall].
    destruct (serve_servable line st Hline) as (out1 & st1 & Hs & Hlen).
    destruct (IH st1 Hall) as (out2 & st2 & Hm & Hlen2).
    exists (out1 ++ out2), st2. simpl. rewrite Hs, Hm. split; [done|].
    rewrite length_app, Hlen, Hlen2. unfold non_blank.
    rewrite !filter_cons, filter_nil. by case_decide.
Qed.

(** ** Where a run ends *)

Lemma serve_escapes (line : pystr) (st st' : state) (out : list response)
    (e : exn) :
  serve line st = (out, Some e, st') → escapes line e ∧ out = [] ∧ st' = st.
Proof.
  unfold serve, escapes. destruct (strip line) as [|c l] eqn:El; [done|].
  destruct (json_loads (c :: l)) as [document|msg|e'] eqn:Ej; [|done|].
  - destruct document as [| | | | | |request];
      try (intros [= <- <- <-]; split; [|done]; split; [done|];
           right; left; eexists; by repeat split).
    destruct (HANDLERS_get _) as [[handler|]|e'] eqn:Eg.
    + by destruct (handler _ st) as [[o|e'] st1].
    + done.
    + intros [= <- <- <-]. split; [|done]. split; [done|].
      right. right. exists request. split; [done|].
      unfold HANDLERS_get in Eg.
      destruct (default VNone (request !! lit "method")); try done;
        by injection Eg as <-.
  - intros [= <- <- <-]. split; [|done]. split; [done|]. by left.
Qed.

Lemma serve_None_servable (line : pystr) (st st' : state)
    (out : list response) :
  serve line st = (out, None, st') → servable line.
Proof.
  unfold serve, servable. destruct (strip line) as [|c l] eqn:El; [by left|].
  destruct (json_loads (c :: l)) as [document|msg|e'] eqn:Ej;
    [|by eauto|done].
  destruct document as [| | | | | |request]; try done.
  intros Hs. right. right. exists request. split; [done|].
  unfold HANDLERS_get in Hs.
  by destruct (default VNone (request !! lit "method")).
Qed.

Lemma escapes_not_servable (line : pystr) (e : exn) :
  escapes line e → ¬ servable line.
Proof.
  intros [Hline Hesc] [Hblank|[[msg Hmsg]|(request & Hreq & Hhash)]];
    [done| |].
  - destruct Hesc as [H|[(document & H & _)|(request & H & _)]];
      by rewrite Hmsg in H.
  - destruct Hesc as [H|[(document & H & Hdoc & _)|(request' & H & Hh & _)]];
      rewrite Hreq in H; [done| |].
    + injection H as <-. by eapply Hdoc.
    + injection H as <-. by rewrite Hhash in Hh.
Qed.

(** X8. A run that reads its input to the end has met only lines it can
    serve (the converse of the previous theorem). A run that ends before
    that ends at the first line it cannot serve: one on which [json.loads]
    raises something other than JSONDecodeError, one that holds a document
    that is no object, or one whose method cannot be hashed. The exception
    of that line escapes, and the responses printed and the state left are
    those of the lines before it; nothing is printed for the line itself and
    the lines after it are not read. *)
Theorem first_unservable_line_ends_the_run (stdin : list pystr)
    (st st' : state) (out : list response) (how : exit) :
  main stdin st = (out, how, st') →
  match how with
  | EndOfInput => Forall servable stdin
  | Uncaught e =>
    ∃ before line after,
      stdin = before ++ line :: after ∧
      Forall servable before ∧
      ¬ servable line ∧
      escapes line e ∧
      main before st = (out, EndOfInput, st')
  end.
Proof.
  revert st out. induction stdin as [|line stdin IH]; intros st out.
  - by intros [= <- <- <-].
  - simpl. destruct (serve line st) as [[out1 [e|]] st1] eqn:E.
    + intros [= <- <- <-].
      destruct (serve_escapes _ _ _ _ _ E) as (Hesc & -> & ->).
      exists [], line, stdin.
      split; [done|]. split; [done|].
      split; [by eapply escapes_not_servable | done].
    + pose proof (serve_None_servable _ _ _ _ E) as Hline.
      destruct (main stdin st1) as [[out2 how2] st2] eqn:E2.
      intros [= <- <- <-]. specialize (IH st1 out2 E2).
      destruct how2 as [|e].
      * by constructor.
      * destruct IH
          as (before & bad & after & -> & Hbefore & Hbad & Hesc & Hrun).
        exists (line :: before), bad, after.
        split; [done|]. split; [by constructor|].
        split; [done|]. split; [done|].
        simpl. by rewrite E, Hrun.
Qed.

Lemma triple_eta {A B C} (x : A * B * C) : x = (x.1.1, x.1.2, x.2).
Proof. by destruct x as [[? ?] ?]. Qed.

End Bridge.

(** ** The properties at sample inputs *)

Lemma privileged_call_needs_config_witness :
  ∃ handler,
    HANDLERS (LIB := Sample.signing) Sample.int_of_str
      !! lit "sign_cancel_order" = Some handler ∧
    handler (VDict Sample.cancel_order_99) (initial 0%nat) =
      (Ok {[ lit "error" := VStr (lit "client_not_initialized") ]},
       initial 0%nat) ∧
    calls (handler (VDict Sample.cancel_order_99) (initial 0%nat)).2
      = calls (initial 0%nat).
Proof.
  apply (privileged_call_needs_config Sample.int_of_str
           (lit "sign_cancel_order") Sample.cancel_order_99 (VInt 99) 99
           (initial 0%nat)).
  - unfold privileged. set_solver.
  - reflexivity.
  - reflexivity.
  - reflexivity.
  - intros [[x Hx] _]. vm_compute in Hx. discriminate.
Defined.

Lemma ensure_client_connects_witness :
  ∃ outcome st',
    _ensure_client (LIB := Sample.failing (Sample.cstr "invalid key"))
      Sample.int_of_str (VDict Sample.credentials) (initial 0%nat)
      = (Ok outcome, st') ∧
    outcome = {[ lit "error" := VStr (lit "invalid key") ]} ∧
    calls st' =
      [ CallCreateClient (string_at (Sample.cstr "https://x"))
          (string_at (Sample.cstr "0xabc")) 1 0 5 ] ∧
    _INITIALISED_KEYS st' = ∅.
Proof.
  destruct (ensure_client_connects
              (LIB := Sample.failing (Sample.cstr "invalid key"))
              Sample.int_of_str Sample.credentials (VInt 0) 0 (initial 0%nat)
              {| baseUrl := VStr (lit "https://x");
                 privateKey := VStr (lit "0xabc");
                 chainId := 1; accountIndex := 5 |}
              (lit "https://x") (lit "0xabc")
              (string_at (Sample.cstr "https://x"))
              (string_at (Sample.cstr "0xabc")))
    as (outcome & st' & Hrun & _ & Hcalls & _ & Hout).
  - reflexivity.
  - reflexivity.
  - left. repeat split; try reflexivity; by eexists.
  - reflexivity.
  - reflexivity.
  - reflexivity.
  - reflexivity.
  - exists outcome, st'. split; [exact Hrun|].
    simpl in Hout. destruct Hout as [(message & Hm & ->) Hkeys].
    injection Hm as <-.
    split; [reflexivity|]. split; [exact Hcalls | exact Hkeys].
Defined.

Lemma dispatched_response_fields_witness :
  ∃ resp,
    (serve (LIB := Sample.signing) Sample.int_of_str Sample.exc_str
       Sample.repr Sample.json_loads Sample.cancel_order_line
       (initial 0%nat)).1.1 = [resp] ∧
    has_key (lit "error") resp = negb (has_key (lit "result") resp) ∧
    has_key (lit "result") resp = true ∧
    has_key (lit "txHash") resp = true ∧
    has_key (lit "messageToSign") resp = true.
Proof.
  destruct (dispatched_response_fields (LIB := Sample.signing)
              Sample.int_of_str Sample.exc_str Sample.repr Sample.json_loads
              Sample.cancel_order_line (initial 0%nat)
              (serve (LIB := Sample.signing) Sample.int_of_str Sample.exc_str
                 Sample.repr Sample.json_loads Sample.cancel_order_line
                 (initial 0%nat)).2
              (Sample.object
                 [ ("id"%string, VInt 7);
                   ("method"%string, VStr (lit "sign_cancel_order"));
                   ("params"%string,
                    VDict (<[ lit "marketIndex" := VInt 1 ]>
                           (<[ lit "orderIndex" := VInt 1 ]>
                            (<[ lit "nonce" := VInt 1 ]>
                             Sample.credentials)))) ])
              (lit "sign_cancel_order")
              (handle_sign_cancel_order (LIB := Sample.signing)
                 Sample.int_of_str)
              (<[ lit "result" := VStr (lit "{cancel}") ]>
                 (<[ lit "txHash" := VStr (lit "0xdef") ]>
                    {[ lit "messageToSign" := VNone ]})))
    as (resp & Hserve & Hxor & _ & _ & _ & Hsigned & _).
  - (vm_compute; discriminate).
  - (vm_compute; reflexivity).
  - reflexivity.
  - reflexivity.
  - (vm_compute; reflexivity).
  - assert (serve (LIB := Sample.signing) Sample.int_of_str Sample.exc_str
              Sample.repr Sample.json_loads Sample.cancel_order_line
              (initial 0%nat)
            = ([ <[ lit "id" := VInt 7 ]>
                   (<[ lit "result" := VStr (lit "{cancel}") ]>
                      (<[ lit "txHash" := VStr (lit "0xdef") ]>
                         {[ lit "messageToSign" := VNone ]})) ],
               None,
               (serve (LIB := Sample.signing) Sample.int_of_str
                  Sample.exc_str Sample.repr Sample.json_loads
                  Sample.cancel_order_line (initial 0%nat)).2)) as Hrun
      by (vm_compute; reflexivity).
    exists resp. rewrite Hserve. split; [reflexivity|]. split; [exact Hxor|].
    apply Hsigned.
    + unfold transaction_methods.
      apply list_elem_of_further, list_elem_of_here.
    + assert (resp = <[ lit "id" := VInt 7 ]>
                   (<[ lit "result" := VStr (lit "{cancel}") ]>
                      (<[ lit "txHash" := VStr (lit "0xdef") ]>
                         {[ lit "messageToSign" := VNone ]}))) as -> by congruence.
      reflexivity.
Defined.

Lemma dispatch_errors_and_ids_witness :
  serve (LIB := Sample.signing) Sample.int_of_str Sample.exc_str
    Sample.repr Sample.json_loads Sample.unknown_method_line (initial 0%nat)
  = ([ <[ lit "id" := VInt 3 ]>
         {[ lit "error" := VStr (lit "unknown_method:nope") ]} ],
     None, initial 0%nat).
Proof.
  refine (proj1 (dispatch_errors_and_ids (LIB := Sample.signing)
            Sample.int_of_str Sample.exc_str Sample.repr Sample.json_loads
            Sample.unknown_method_line (initial 0%nat)
            (Sample.object [ ("id"%string, VInt 3);
                             ("method"%string, VStr (lit "nope")) ])
            _ _ _) _).
  - vm_compute. discriminate.
  - vm_compute. reflexivity.
  - reflexivity.
  - intros name [= <-] H. rewrite !elem_of_cons, elem_of_nil in H.
    vm_compute in H. intuition discriminate.
Defined.

Lemma invalid_json_reported_witness :
  serve (LIB := Sample.signing) Sample.int_of_str Sample.exc_str
    Sample.repr Sample.json_loads Sample.malformed_line (initial 0%nat)
  = ([ <[ lit "id" := VNone ]>
         {[ lit "error" := VStr (lit "invalid_json:Expecting value") ]} ],
     None, initial 0%nat).
Proof.
  refine (proj1 (invalid_json_reported (LIB := Sample.signing)
            Sample.int_of_str Sample.exc_str Sample.repr Sample.json_loads
            Sample.malformed_line (initial 0%nat) (lit "Expecting value")
            _ _)).
  - vm_compute. discriminate.
  - vm_compute. reflexivity.
Defined.

Lemma create_client_idempotent_witness :
  ∃ st1 st2,
    handle_create_client (LIB := Sample.signing) Sample.int_of_str
      (VDict Sample.credentials) (initial 0%nat)
      = (Ok {[ lit "result" := VStr (lit "ok") ]}, st1) ∧
    handle_create_client (LIB := Sample.signing) Sample.int_of_str
      (VDict Sample.credentials) st1
      = (Ok {[ lit "result" := VStr (lit "ok") ]}, st2) ∧
    size (_CLIENT_CONFIG st2) = 1%nat.
Proof.
  destruct (create_client_idempotent (LIB := Sample.signing)
              Sample.int_of_str Sample.credentials (VInt 0) 0
              (lit "https://x") (lit "0xabc")
              (string_at (Sample.cstr "https://x"))
              (string_at (Sample.cstr "0xabc")) 1 5 (initial 0%nat))
    as (st1 & st2 & H1 & H2 & _ & _ & _ & Hsize);
    try reflexivity.
  exists st1, st2. split; [exact H1|]. split; [exact H2|].
  apply Hsize. reflexivity.
Defined.

Lemma credential_overwrite_is_atomic_witness :
  ∃ e,
    handle_create_client (LIB := Sample.signing) Sample.int_of_str
      (VDict Sample.bad_credentials) (initial 0%nat)
      = (Raise e, initial 0%nat) ∧
    serve (LIB := Sample.signing) Sample.int_of_str Sample.exc_str
      Sample.repr Sample.json_loads Sample.bad_create_client_line
      (initial 0%nat)
    = ([ <[ lit "id" := VInt 8 ]>
           {[ lit "error" := VStr (lit "exception:" ++ Sample.exc_str e) ]} ],
       None, initial 0%nat).
Proof.
  destruct (credential_overwrite_is_atomic (LIB := Sample.signing)
              Sample.int_of_str Sample.exc_str Sample.repr Sample.json_loads
              (lit "create_client")
              (handle_create_client (LIB := Sample.signing) Sample.int_of_str)
              Sample.bad_credentials (initial 0%nat))
    as (e & Hrun & Hserve).
  - reflexivity.
  - split; by eexists.
  - left. intros (v & z & Hv & Hz).
    vm_compute in Hv. injection Hv as <-. vm_compute in Hz. discriminate.
  - exists e. split; [exact Hrun|].
    apply (Hserve Sample.bad_create_client_line
             (Sample.object
                [ ("id"%string, VInt 8);
                  ("method"%string, VStr (lit "create_client"));
                  ("params"%string, VDict Sample.bad_credentials) ])).
    + vm_compute. discriminate.
    + vm_compute. reflexivity.
    + reflexivity.
    + reflexivity.
Defined.

Lemma blank_lines_are_skipped_witness :
  main (LIB := Sample.signing) Sample.int_of_str Sample.exc_str Sample.repr
    Sample.json_loads [Sample.blank_line; Sample.unknown_method_line]
    (initial 0%nat)
  = main (LIB := Sample.signing) Sample.int_of_str Sample.exc_str Sample.repr
      Sample.json_loads [Sample.unknown_method_line] (initial 0%nat).
Proof.
  refine (proj2 (proj1 (blank_lines_are_skipped (LIB := Sample.signing)
            Sample.int_of_str Sample.exc_str Sample.repr Sample.json_loads
            Sample.blank_line (initial 0%nat)) _) _).
  repeat constructor.
Defined.


Lemma serve_uncaught_witness :
  main (LIB := Sample.signing) Sample.int_of_str Sample.exc_str Sample.repr
    Sample.json_loads [Sample.array_line; Sample.unknown_method_line]
    (initial 0%nat)
  = ([], Uncaught (AttributeError (VList [VInt 1]) (lit "get")),
     initial 0%nat).
Proof.
  cbn [main].
  rewrite (serve_uncaught (LIB := Sample.signing) Sample.int_of_str
             Sample.exc_str Sample.repr Sample.json_loads Sample.array_line
             (initial 0%nat) (VList [VInt 1])).
  - reflexivity.
  - vm_compute. discriminate.
  - vm_compute. reflexivity.
Defined.

Lemma request_touches_only_its_key_witness :
  touches_only 0 (initial 0%nat)
    (handle_create_client (LIB := Sample.signing) Sample.int_of_str
       (VDict Sample.credentials) (initial 0%nat)).2.
Proof.
  destruct (request_touches_only_its_key (LIB := Sample.signing)
              Sample.int_of_str (lit "create_client")
              (handle_create_client (LIB := Sample.signing) Sample.int_of_str)
              (VDict Sample.credentials) (initial 0%nat)
              (handle_create_client (LIB := Sample.signing) Sample.int_of_str
                 (VDict Sample.credentials) (initial 0%nat)).2
              (handle_create_client (LIB := Sample.signing) Sample.int_of_str
                 (VDict Sample.credentials) (initial 0%nat)).1)
    as [[[e He] _]|(v & k & Hv & Hk & Ht)].
  - reflexivity.
  - reflexivity.
  - vm_compute in He. discriminate.
  - vm_compute in Hv. injection Hv as <-.
    vm_compute in Hk. injection Hk as <-. exact Ht.
Defined.

(** ** Where the code departs from a stated property *)

(** CreateClient returning a pointer to an empty string, which is not
    NULL: the key is marked initialised and {result: ok} is returned. *)
Lemma empty_error_counts_as_success :
  (CreateClient (Signer := Sample.failing (Some []))
     (string_at (Sample.cstr "https://x")) (string_at (Sample.cstr "0xabc"))
     1 0 5 0%nat).1 = Some []
  ∧ ∃ st',
      _ensure_client (LIB := Sample.failing (Some [])) Sample.int_of_str
        (VDict Sample.credentials) (initial 0%nat)
        = (Ok {[ lit "result" := VStr (lit "ok") ]}, st') ∧
      0 ∈ _INITIALISED_KEYS st'.
Proof.
  split; [reflexivity|].
  eexists. split; [vm_compute; reflexivity|].
  simpl. set_solver.
Qed.

(** The response to a signed cancel order holds result and txHash (and
    messageToSign) at once. *)
Lemma signed_response_has_result_and_hash :
  ∃ resp st',
    serve (LIB := Sample.signing) Sample.int_of_str Sample.exc_str
      Sample.repr Sample.json_loads Sample.cancel_order_line (initial 0%nat)
      = ([resp], None, st') ∧
    resp !! lit "id" = Some (VInt 7) ∧
    resp !! lit "error" = None ∧
    resp !! lit "result" = Some (VStr (lit "{cancel}")) ∧
    resp !! lit "txHash" = Some (VStr (lit "0xdef")).
Proof.
  exists (<[ lit "id" := VInt 7 ]>
            (<[ lit "result" := VStr (lit "{cancel}") ]>
               (<[ lit "txHash" := VStr (lit "0xdef") ]>
                  {[ lit "messageToSign" := VNone ]}))),
         (serve (LIB := Sample.signing) Sample.int_of_str Sample.exc_str
            Sample.repr Sample.json_loads Sample.cancel_order_line
            (initial 0%nat)).2.
  split; [vm_compute; reflexivity|].
  repeat split; reflexivity.
Qed.


(** A line of blanks is no JSON document, and yet it is answered with
    nothing at all rather than with invalid_json. Nor is a line of two
    thousand opening brackets: [json.loads] raises RecursionError on it,
    which is no JSONDecodeError and ends the run. *)
Lemma blank_line_gets_no_invalid_json :
  Sample.json_loads Sample.blank_line
    = JSONDecodeError (lit "Expecting value") ∧
  Sample.json_loads (strip Sample.blank_line)
    = JSONDecodeError (lit "Expecting value") ∧
  serve (LIB := Sample.signing) Sample.int_of_str Sample.exc_str
    Sample.repr Sample.json_loads Sample.blank_line (initial 0%nat)
  = ([], None, initial 0%nat) ∧
  Sample.json_loads (strip Sample.deep_line) = LoadsRaised RecursionError ∧
  main (LIB := Sample.signing) Sample.int_of_str Sample.exc_str
    Sample.repr Sample.json_loads
    [Sample.deep_line; Sample.unknown_method_line] (initial 0%nat)
  = ([], Uncaught RecursionError, initial 0%nat).
Proof. repeat split; vm_compute; reflexivity. Qed.

(** With a baseUrl that is a number, or a privateKey that holds a lone
    surrogate, create_client does not return {result: ok}: the
    configuration is stored, encoding raises before CreateClient is called,
    and the request is answered with an exception. *)
Lemma create_client_raises_on_unencodable_credentials :
  (∃ st',
     handle_create_client (LIB := Sample.signing) Sample.int_of_str
       (VDict Sample.numeric_url_credentials) (initial 0%nat)
       = (Raise (AttributeError (VInt 5) (lit "encode")), st') ∧
     is_Some (_CLIENT_CONFIG st' !! 0) ∧ calls st' = [] ∧
     serve (LIB := Sample.signing) Sample.int_of_str Sample.exc_str
       Sample.repr Sample.json_loads Sample.numeric_url_line (initial 0%nat)
     = ([ <[ lit "id" := VInt 9 ]>
            {[ lit "error" :=
                 VStr (lit "exception:'int' object has no attribute 'encode'") ]} ],
        None, st'))
  ∧ (∃ st',
       handle_create_client (LIB := Sample.signing) Sample.int_of_str
         (VDict Sample.surrogate_key_credentials) (initial 0%nat)
         = (Raise (UnicodeEncodeError [0xD800%N]), st') ∧
       is_Some (_CLIENT_CONFIG st' !! 0) ∧ calls st' = []).
Proof.
  split.
  - exists (handle_create_client (LIB := Sample.signing) Sample.int_of_str
              (VDict Sample.numeric_url_credentials) (initial 0%nat)).2.
    split; [vm_compute; reflexivity|].
    split; [apply (bool_decide_unpack _); vm_compute; reflexivity|].
    split; vm_compute; reflexivity.
  - exists (handle_create_client (LIB := Sample.signing) Sample.int_of_str
              (VDict Sample.surrogate_key_credentials) (initial 0%nat)).2.
    split; [vm_compute; reflexivity|].
    split; [apply (bool_decide_unpack _); vm_compute; reflexivity|].
    vm_compute; reflexivity.
Qed.

(** C6. A request whose method is a list: [HANDLERS.get] raises TypeError
    outside the try block, so no response is printed for it, neither
    unknown_method nor exception, its id is not echoed, and the request
    after it is never read. *)
Lemma unhashable_method_ends_the_run :
  Sample.json_loads (strip Sample.list_method_line)
    = Loaded (VDict (Sample.object [ ("id"%string, VInt 1);
                                     ("method"%string, VList []) ]))
  ∧ main (LIB := Sample.signing) Sample.int_of_str Sample.exc_str
      Sample.repr Sample.json_loads
      [Sample.list_method_line; Sample.unknown_method_line] (initial 0%nat)
    = ([], Uncaught (TypeError (VList [])), initial 0%nat).
Proof. split; vm_compute; reflexivity. Qed.

(** C10. A line that is not blank and holds a JSON string: [request.get]
    raises AttributeError outside the try block, so the line prints nothing
    at all, and neither does the line after it. *)
Lemma non_object_line_prints_nothing :
  strip Sample.string_line ≠ []
  ∧ Sample.json_loads (strip Sample.string_line) = Loaded (VStr (lit "ready"))
  ∧ main (LIB := Sample.signing) Sample.int_of_str Sample.exc_str
      Sample.repr Sample.json_loads
      [Sample.string_line; Sample.unknown_method_line] (initial 0%nat)
    = ([], Uncaught (AttributeError (VStr (lit "ready")) (lit "get")),
       initial 0%nat).
Proof.
  split; [vm_compute; discriminate|]. split; vm_compute; reflexivity.
Qed.

(** ** Whole runs at sample inputs *)

Lemma request_calls_witness :
  let run := serve (LIB := Sample.signing) Sample.int_of_str Sample.exc_str
               Sample.repr Sample.json_loads Sample.cancel_order_line
               (initial 0%nat) in
  ∃ new,
    calls run.2 = calls (initial 0%nat) ++ new ∧
    ((new = [] ∧ _INITIALISED_KEYS run.2 = _INITIALISED_KEYS (initial 0%nat))
     ∨ ∃ k c,
         is_signing c = false ∧ api_key_of c = c_int k ∧
         is_Some (_CLIENT_CONFIG run.2 !! k) ∧
         _INITIALISED_KEYS run.2 ⊆ {[k]} ∪ _INITIALISED_KEYS (initial 0%nat) ∧
         (new = [c]
          ∨ ∃ s, new = [c; s] ∧ is_signing s = true ∧
                 api_key_of s = c_int k)).
Proof.
  intros run.
  refine (proj2 (proj2 (request_calls (LIB := Sample.signing)
            Sample.int_of_str Sample.exc_str Sample.repr Sample.json_loads
            Sample.cancel_order_line (initial 0%nat) run.2 run.1.1 run.1.2
            _))).
  apply triple_eta.
Defined.

Lemma run_is_guarded_witness :
  let run := main (LIB := Sample.signing) Sample.int_of_str Sample.exc_str
               Sample.repr Sample.json_loads
               [Sample.create_client_line; Sample.cancel_order_line]
               (initial 0%nat) in
  (is_Some (_CLIENT_CONFIG run.2 !! 0) ∧
   ∃ c, c ∈ calls run.2 ∧ is_signing c = false ∧ api_key_of c = c_int 0)
  ∧ ∃ before' c,
      take 2 (calls run.2) = before' ++ [c] ∧ is_signing c = false ∧
      api_key_of c = api_key_of (CallSignCancelOrder 1 1 1 0 5).
Proof.
  intros run.
  destruct (run_is_guarded (LIB := Sample.signing)
              Sample.int_of_str Sample.exc_str Sample.repr Sample.json_loads
              0%nat [Sample.create_client_line; Sample.cancel_order_line]
              run.1.1 run.1.2 run.2 (triple_eta run)) as [Hkeys Hcalls].
  split.
  - apply Hkeys. apply (bool_decide_unpack _). vm_compute. reflexivity.
  - apply (Hcalls _ _ []); [vm_compute; reflexivity | reflexivity].
Defined.

Lemma every_response_is_well_formed_witness :
  let resp : response :=
    <[ lit "id" := VInt 3 ]>
      {[ lit "error" := VStr (lit "unknown_method:nope") ]} in
  is_Some (resp !! lit "id") ∧
  has_key (lit "error") resp = negb (has_key (lit "result") resp).
Proof.
  intros resp.
  apply (every_response_is_well_formed (LIB := Sample.signing)
           Sample.int_of_str Sample.exc_str Sample.repr Sample.json_loads
           [Sample.blank_line; Sample.unknown_method_line] (initial 0%nat)
           (initial 0%nat) [resp] EndOfInput resp).
  - vm_compute. reflexivity.
  - apply list_elem_of_here.
Defined.

Lemma main_serves_every_line_witness :
  ∃ out st',
    main (LIB := Sample.signing) Sample.int_of_str Sample.exc_str Sample.repr
      Sample.json_loads
      [Sample.create_client_line; Sample.blank_line; Sample.malformed_line;
       Sample.unknown_method_line] (initial 0%nat)
    = (out, EndOfInput, st') ∧
    length out = 3%nat.
Proof.
  destruct (main_serves_every_line (LIB := Sample.signing)
              Sample.int_of_str Sample.exc_str Sample.repr Sample.json_loads
              [Sample.create_client_line; Sample.blank_line;
               Sample.malformed_line; Sample.unknown_method_line]
              (initial 0%nat)) as (out & st' & Hmain & Hlen).
  - constructor; [|constructor; [|constructor; [|constructor; [|constructor]]]].
    + right. right. eexists.
      split; [vm_compute; reflexivity | vm_compute; reflexivity].
    + left. vm_compute. reflexivity.
    + right. left. eexists. vm_compute. reflexivity.
    + right. right. eexists.
      split; [vm_compute; reflexivity | vm_compute; reflexivity].
  - exists out, st'. split; [exact Hmain|].
    rewrite Hlen. vm_compute. reflexivity.
Defined.

Lemma first_unservable_line_ends_the_run_witness :
  let stdin := [Sample.create_client_line; Sample.long_number_line;
                Sample.unknown_method_line] in
  let run := main (LIB := Sample.signing) Sample.int_of_str Sample.exc_str
               Sample.repr Sample.json_loads stdin (initial 0%nat) in
  ∃ e before line after,
    run.1.2 = Uncaught e ∧
    stdin = before ++ line :: after ∧
    Forall (servable Sample.json_loads) before ∧
    ¬ servable Sample.json_loads line ∧
    escapes Sample.json_loads line e ∧
    main (LIB := Sample.signing) Sample.int_of_str Sample.exc_str
      Sample.repr Sample.json_loads before (initial 0%nat)
    = (run.1.1, EndOfInput, run.2).
Proof.
  intros stdin run.
  exists (ValueError (VStr (replicate 5000 57%N))).
  assert (run.1.2 = Uncaught (ValueError (VStr (replicate 5000 57%N))))
    as Hhow by (vm_compute; reflexivity).
  pose proof (first_unservable_line_ends_the_run (LIB := Sample.signing)
                Sample.int_of_str Sample.exc_str Sample.repr
                Sample.json_loads stdin (initial 0%nat) run.2 run.1.1
                run.1.2 (triple_eta run)) as Hrun.
  rewrite Hhow in Hrun.
  destruct Hrun as (before & line & after & Hrun).
  exists before, line, after. split; [exact Hhow | exact Hrun].
Defined.
